(** * Rule evaluation of the Gmail rules manager (src/rules_engine.py)

    A shallow embedding of [RulesEngine] and the properties of its
    evaluation.

    Modelling conventions.
    - A Python [str] is a [string]; the development covers ASCII text, on
      which [py_lower] is [str.lower] and [py_int] is [int()].
    - A naive [datetime] is a number of microseconds on the time line;
      [(a - b).days] is the floor of the difference in whole days.
    - A rule, a condition and an action are the JSON objects of the rules
      file with their keys present; a condition's [unit] key is optional.
    - An [Email] row has the nullable columns of src/db.py as [option].
    - [datetime.utcnow()] is the only effect of the evaluation besides
      exceptions: a computation threads the number of clock readings made
      so far, and the k-th reading returns [clock k].

    The development then follows a plan into src/actions.py and
    src/db.py ([execute_actions], the three actions, [log_action],
    [store_email]) and a message from src/email_fetcher.py
    ([parse_email]) into the table; the conventions of these parts stand
    at their definitions. *)

From stdpp Require Import gmap strings list pretty.
From Stdlib Require Import ZArith Ascii String Lia.

Local Open Scope Z_scope.
Local Open Scope string_scope.

(** ** Python strings *)

Definition ascii_lower (c : ascii) : ascii :=
  let n := nat_of_ascii c in
  if ((65 <=? n) && (n <=? 90))%nat then ascii_of_nat (n + 32) else c.

(** [str.lower()] *)
Fixpoint py_lower (s : string) : string :=
  match s with
  | EmptyString => EmptyString
  | String c s' => String (ascii_lower c) (py_lower s')
  end.

(** [needle in hay] for two strings: [needle] occurs as a substring. *)
Fixpoint py_in (needle hay : string) : bool :=
  String.prefix needle hay
  || match hay with
     | EmptyString => false
     | String _ hay' => py_in needle hay'
     end.

Definition str_eqb (a b : string) : bool := bool_decide (a = b).

(** ** [int(value)] on a string *)

(** The characters [int()] skips around the number: tab, newline, vertical
    tab, form feed, carriage return and space. *)
Definition is_space (c : ascii) : bool :=
  let n := nat_of_ascii c in
  (((9 <=? n) && (n <=? 13)) || (n =? 32))%nat.

Definition digit_value (c : ascii) : option Z :=
  let n := nat_of_ascii c in
  if ((48 <=? n) && (n <=? 57))%nat then Some (Z.of_nat n - 48) else None.

Fixpoint skip_spaces (s : string) : string :=
  match s with
  | String c s' => if is_space c then skip_spaces s' else s
  | EmptyString => EmptyString
  end.

(** The digits after the first one; a single underscore may separate two
    digits.  Returns the number read and the text left. *)
Fixpoint more_digits (acc : Z) (s : string) : option (Z * string) :=
  match s with
  | EmptyString => Some (acc, EmptyString)
  | String c s' =>
      match digit_value c with
      | Some d => more_digits (10 * acc + d) s'
      | None =>
          if Ascii.eqb c "_"%char then
            match s' with
            | String c' s'' =>
                match digit_value c' with
                | Some d => more_digits (10 * acc + d) s''
                | None => None
                end
            | EmptyString => None
            end
          else Some (acc, s)
      end
  end.

Definition unsigned_int (s : string) : option Z :=
  match s with
  | String c s' =>
      match digit_value c with
      | Some d =>
          match more_digits d s' with
          | Some (n, rest) =>
              match skip_spaces rest with
              | EmptyString => Some n
              | _ => None
              end
          | None => None
          end
      | None => None
      end
  | EmptyString => None
  end.

(** [int(s)]: [None] stands for [ValueError].  Numbers longer than the
    interpreter's limit on decimal digits are outside the model. *)
Definition py_int (s : string) : option Z :=
  match skip_spaces s with
  | String c s' =>
      if Ascii.eqb c "-"%char then Z.opp <$> unsigned_int s'
      else if Ascii.eqb c "+"%char then unsigned_int s'
      else unsigned_int (String c s')
  | EmptyString => None
  end.

(** ** Dates *)

Definition datetime := Z.

Definition us_per_day : Z := 86400 * 1000000.

(** [(a - b).days] *)
Definition days_between (a b : datetime) : Z := (a - b) / us_per_day.

(** ** Exceptions and the clock *)

Inductive exn : Type :=
| ValueError (msg : string)
| AttributeError.

Inductive result (A : Type) : Type :=
| Ok (a : A)
| Raise (e : exn).
Arguments Ok {A} a.
Arguments Raise {A} e.

(** A computation takes the number of clock readings made so far and
    returns its outcome with the new count. *)
Definition M (A : Type) : Type := nat -> result A * nat.

Definition ret {A} (a : A) : M A := fun t => (Ok a, t).

Definition raise {A} (e : exn) : M A := fun t => (Raise e, t).

Definition bind {A B} (m : M A) (f : A -> M B) : M B :=
  fun t =>
    match m t with
    | (Ok a, t') => f a t'
    | (Raise e, t') => (Raise e, t')
    end.

Declare Scope py_scope.
Delimit Scope py_scope with py.
Notation "x <- m ;; k" := (bind m (fun x => k))
  (at level 100, m at next level, right associativity) : py_scope.
Local Open Scope py_scope.

(** ** Data model *)

Module Email.
(** The columns of the [emails] table that the evaluation reads. *)
Record t : Type := mk {
  id : Z;
  from_address : option string;
  to_address : option string;
  subject : option string;
  body_text : option string;
  received_date : option datetime
}.
End Email.

Module Condition.
Record t : Type := mk {
  field : string;
  predicate : string;
  value : string;
  unit : option string
}.
End Condition.

Module Action.
Record t : Type := mk {
  type : string;
  destination : option string
}.
End Action.

Module Rule.
Record t : Type := mk {
  id : string;
  predicate : string;
  conditions : list Condition.t;
  actions : list Action.t
}.
End Rule.

(** One element of an action list of the result:
    [{'action': action, 'rule_id': rule['id']}]. *)
Record applied : Type := mk_applied {
  action : Action.t;
  rule_id : string
}.

Abbreviation action_plan := (gmap Z (list applied)).

(** ** The engine *)

Section Engine.

(** [clock k] is what the k-th call of [datetime.utcnow()] returns. *)
Variable clock : nat -> datetime.

Definition utcnow : M datetime := fun t => (Ok (clock t), S t).

Definition _check_date_condition (predicate value unit : string)
    (email_date : option datetime) : M bool :=
  match email_date with
  | None => ret false
  | Some email_date =>
      match py_int value with
      | None => ret false
      | Some value =>
          now <- utcnow ;;
          time_diff <-
            (if str_eqb unit "days" then ret (days_between now email_date)
             else if str_eqb unit "months" then
               ret (days_between now email_date / 30)
             else raise (ValueError ("Unknown unit: " +:+ unit))) ;;
          if str_eqb predicate "less_than" then ret (time_diff <? value)%Z
          else if str_eqb predicate "greater_than" then
            ret (time_diff >? value)%Z
          else raise (ValueError ("Unknown date predicate: " +:+ predicate))
      end
  end.

(** The string predicates of [_condition_matches];
    [field_value] is [None] when the column is null. *)
Definition check_string_condition (predicate value : string)
    (field_value : option string) : M bool :=
  let lowered : M string :=
    match field_value with
    | Some s => ret (py_lower s)
    | None => raise AttributeError
    end in
  if str_eqb predicate "contains" then
    f <- lowered ;; ret (py_in (py_lower value) f)
  else if str_eqb predicate "does_not_contain" then
    f <- lowered ;; ret (negb (py_in (py_lower value) f))
  else if str_eqb predicate "equals" then
    f <- lowered ;; ret (str_eqb (py_lower value) f)
  else if str_eqb predicate "does_not_equal" then
    f <- lowered ;; ret (negb (str_eqb (py_lower value) f))
  else raise (ValueError ("Unknown predicate: " +:+ predicate)).

Definition _condition_matches (condition : Condition.t) (email : Email.t)
    : M bool :=
  let field := py_lower (Condition.field condition) in
  let predicate := py_lower (Condition.predicate condition) in
  let value := Condition.value condition in
  if str_eqb field "from" then
    check_string_condition predicate value (Email.from_address email)
  else if str_eqb field "to" then
    check_string_condition predicate value (Email.to_address email)
  else if str_eqb field "subject" then
    check_string_condition predicate value (Email.subject email)
  else if str_eqb field "message" then
    check_string_condition predicate value
      (Some (default "" (Email.body_text email)))
  else if str_eqb field "received_date" then
    _check_date_condition predicate value
      (default "days" (Condition.unit condition))
      (Email.received_date email)
  else raise (ValueError ("Unknown field: " +:+ field)).

(** [all(self._condition_matches(c, email) for c in conditions)] *)
Fixpoint all_conditions (conditions : list Condition.t) (email : Email.t)
    : M bool :=
  match conditions with
  | [] => ret true
  | c :: cs =>
      b <- _condition_matches c email ;;
      if b then all_conditions cs email else ret false
  end.

(** [any(self._condition_matches(c, email) for c in conditions)] *)
Fixpoint any_conditions (conditions : list Condition.t) (email : Email.t)
    : M bool :=
  match conditions with
  | [] => ret false
  | c :: cs =>
      b <- _condition_matches c email ;;
      if b then ret true else any_conditions cs email
  end.

Definition _rule_applies (rule : Rule.t) (email : Email.t) : M bool :=
  let conditions := Rule.conditions rule in
  let predicate := Rule.predicate rule in
  if str_eqb predicate "all" then all_conditions conditions email
  else if str_eqb predicate "any" then any_conditions conditions email
  else raise (ValueError ("Unknown predicate: " +:+ predicate)).

(** The actions of one rule, tagged with the rule's identifier. *)
Definition rule_actions (rule : Rule.t) : list applied :=
  map (fun a => mk_applied a (Rule.id rule)) (Rule.actions rule).

(** The loop over [self.rules] for one email. *)
Fixpoint check_rules (rules : list Rule.t) (email : Email.t)
    (applicable_actions : list applied) : M (list applied) :=
  match rules with
  | [] => ret applicable_actions
  | rule :: rules' =>
      b <- _rule_applies rule email ;;
      check_rules rules' email
        (if b then applicable_actions ++ rule_actions rule
         else applicable_actions)
  end.

(** The loop over [email_data]. *)
Fixpoint process_emails (rules : list Rule.t) (emails : list Email.t)
    (results : action_plan) : M action_plan :=
  match emails with
  | [] => ret results
  | email :: emails' =>
      applicable_actions <- check_rules rules email [] ;;
      process_emails rules emails'
        (match applicable_actions with
         | [] => results
         | _ :: _ => <[Email.id email := applicable_actions]> results
         end)
  end.

(** [query.all()]: the rows of the table, all of them when [email_ids] is
    [None] or empty, else those whose id is in [email_ids]. *)
Definition query_emails (table : list Email.t) (email_ids : option (list Z))
    : list Email.t :=
  match email_ids with
  | Some (i :: ids) =>
      filter (fun e => Email.id e ∈ i :: ids) table
  | _ => table
  end.

Definition evaluate_emails (rules : list Rule.t) (table : list Email.t)
    (email_ids : option (list Z)) : M action_plan :=
  process_emails rules (query_emails table email_ids) ∅.

End Engine.

Local Open Scope list_scope.

(** ** The run of the loops *)

Section Trace.

Variable clock : nat -> datetime.
Variable rules : list Rule.t.

(** The rules of [rs] that apply to [email], in the order of [rs], when
    they are checked one after the other from the clock count [t]. *)
Fixpoint matching_rules (rs : list Rule.t) (email : Email.t) (t : nat)
    : list Rule.t :=
  match rs with
  | [] => []
  | r :: rs' =>
      match _rule_applies clock r email t with
      | (Ok true, t') => r :: matching_rules rs' email t'
      | (Ok false, t') => matching_rules rs' email t'
      | (Raise _, _) => []
      end
  end.

(** The emails of a run of the loop over [emails] that starts at the
    clock count [t], each with the count at which its rules are
    checked. *)
Fixpoint schedule (emails : list Email.t) (t : nat)
    : list (Email.t * nat) :=
  match emails with
  | [] => []
  | e :: es => (e, t) :: schedule es (snd (check_rules clock rules e [] t))
  end.

(** What the matching rules of an email contribute. *)
Definition collected (email : Email.t) (t : nat) : list applied :=
  flat_map rule_actions (matching_rules rules email t).

End Trace.

(** ** Evaluation at one instant *)

(** The evaluation as the specification words it: the instant [now] is an
    argument of the date comparator, the same for every condition of every
    rule on every message of the call. *)
Section AtInstant.

Variable now : datetime.

Definition rbind {A B} (r : result A) (f : A -> result B) : result B :=
  match r with
  | Ok a => f a
  | Raise e => Raise e
  end.

Definition check_date_at (predicate value unit : string)
    (received_at : option datetime) : result bool :=
  match received_at, py_int value with
  | Some received_at, Some value =>
      rbind
        (if str_eqb unit "days" then Ok (days_between now received_at)
         else if str_eqb unit "months" then
           Ok (days_between now received_at / 30)
         else Raise (ValueError ("Unknown unit: " +:+ unit)))
        (fun elapsed =>
           if str_eqb predicate "less_than" then Ok (elapsed <? value)%Z
           else if str_eqb predicate "greater_than" then
             Ok (elapsed >? value)%Z
           else Raise (ValueError ("Unknown date predicate: " +:+ predicate)))
  | _, _ => Ok false
  end.

Definition check_string_at (predicate value : string)
    (field_value : option string) : result bool :=
  let compare (test : string -> string -> bool) : result bool :=
    match field_value with
    | Some s => Ok (test (py_lower value) (py_lower s))
    | None => Raise AttributeError
    end in
  if str_eqb predicate "contains" then compare py_in
  else if str_eqb predicate "does_not_contain" then
    compare (fun v f => negb (py_in v f))
  else if str_eqb predicate "equals" then compare str_eqb
  else if str_eqb predicate "does_not_equal" then
    compare (fun v f => negb (str_eqb v f))
  else Raise (ValueError ("Unknown predicate: " +:+ predicate)).

Definition condition_matches_at (c : Condition.t) (e : Email.t)
    : result bool :=
  let field := py_lower (Condition.field c) in
  let predicate := py_lower (Condition.predicate c) in
  if str_eqb field "from" then
    check_string_at predicate (Condition.value c) (Email.from_address e)
  else if str_eqb field "to" then
    check_string_at predicate (Condition.value c) (Email.to_address e)
  else if str_eqb field "subject" then
    check_string_at predicate (Condition.value c) (Email.subject e)
  else if str_eqb field "message" then
    check_string_at predicate (Condition.value c)
      (Some (default "" (Email.body_text e)))
  else if str_eqb field "received_date" then
    check_date_at predicate (Condition.value c)
      (default "days" (Condition.unit c)) (Email.received_date e)
  else Raise (ValueError ("Unknown field: " +:+ field)).

Fixpoint all_at (cs : list Condition.t) (e : Email.t) : result bool :=
  match cs with
  | [] => Ok true
  | c :: cs' =>
      rbind (condition_matches_at c e)
        (fun b => if b then all_at cs' e else Ok false)
  end.

Fixpoint any_at (cs : list Condition.t) (e : Email.t) : result bool :=
  match cs with
  | [] => Ok false
  | c :: cs' =>
      rbind (condition_matches_at c e)
        (fun b => if b then Ok true else any_at cs' e)
  end.

Definition rule_applies_at (r : Rule.t) (e : Email.t) : result bool :=
  if str_eqb (Rule.predicate r) "all" then all_at (Rule.conditions r) e
  else if str_eqb (Rule.predicate r) "any" then any_at (Rule.conditions r) e
  else Raise (ValueError ("Unknown predicate: " +:+ Rule.predicate r)).

Fixpoint actions_at (rules : list Rule.t) (e : Email.t)
    : result (list applied) :=
  match rules with
  | [] => Ok []
  | r :: rules' =>
      rbind (rule_applies_at r e)
        (fun b =>
           rbind (actions_at rules' e)
             (fun l => Ok (if b then rule_actions r ++ l else l)))
  end.

Fixpoint plan_at (rules : list Rule.t) (emails : list Email.t)
    (plan : action_plan) : result action_plan :=
  match emails with
  | [] => Ok plan
  | e :: emails' =>
      rbind (actions_at rules e)
        (fun l =>
           plan_at rules emails'
             (if bool_decide (l = []) then plan
              else <[Email.id e := l]> plan))
  end.


End AtInstant.

(** ** Notions of the statements *)

(** [a] occurs in [b] as a substring. *)
Definition is_substring (a b : string) : Prop :=
  exists pre post : string, b = pre +:+ a +:+ post.

(** The value that a string condition on [field] reads from a message:
    the column when it is not null, and for [message] the body text or,
    without one, the empty string. *)
Inductive field_value (e : Email.t) : string -> string -> Prop :=
| fv_from s : Email.from_address e = Some s -> field_value e "from" s
| fv_to s : Email.to_address e = Some s -> field_value e "to" s
| fv_subject s : Email.subject e = Some s -> field_value e "subject" s
| fv_message : field_value e "message" (default "" (Email.body_text e)).

Definition string_fields : list string := ["from"; "to"; "subject"; "message"].

Definition string_predicates : list string :=
  ["contains"; "does_not_contain"; "equals"; "does_not_equal"].

Definition date_predicates : list string := ["less_than"; "greater_than"].

Definition units : list string := ["days"; "months"].

(** The condition holds a value that its evaluation on [e] refuses.  The
    field and the predicate are lower-cased first; the unit and the
    predicate of a date condition are looked at only when the message has
    a date and the value is an integer. *)
Inductive refused (e : Email.t) (c : Condition.t) : Prop :=
| refused_field :
    py_lower (Condition.field c) ∉ string_fields ++ ["received_date"] ->
    refused e c
| refused_string_predicate :
    py_lower (Condition.field c) ∈ string_fields ->
    py_lower (Condition.predicate c) ∉ string_predicates ->
    refused e c
| refused_unit :
    py_lower (Condition.field c) = "received_date" ->
    is_Some (Email.received_date e) ->
    is_Some (py_int (Condition.value c)) ->
    default "days" (Condition.unit c) ∉ units ->
    refused e c
| refused_date_predicate :
    py_lower (Condition.field c) = "received_date" ->
    is_Some (Email.received_date e) ->
    is_Some (py_int (Condition.value c)) ->
    py_lower (Condition.predicate c) ∉ date_predicates ->
    refused e c.

(** The check of rule [r] on [e] from the clock count [t] comes to a value
    that it refuses: the combinator, or a condition that is evaluated
    because no condition before it decided the rule. *)
Inductive rule_refused (clock : nat -> datetime) (e : Email.t) (t : nat)
    (r : Rule.t) : Prop :=
| refused_combinator :
    Rule.predicate r ∉ ["all"; "any"] ->
    rule_refused clock e t r
| refused_under_all cs1 c cs2 t' :
    Rule.predicate r = "all" ->
    Rule.conditions r = cs1 ++ c :: cs2 ->
    all_conditions clock cs1 e t = (Ok true, t') ->
    refused e c ->
    rule_refused clock e t r
| refused_under_any cs1 c cs2 t' :
    Rule.predicate r = "any" ->
    Rule.conditions r = cs1 ++ c :: cs2 ->
    any_conditions clock cs1 e t = (Ok false, t') ->
    refused e c ->
    rule_refused clock e t r.

(** ** Sample rules, messages and clocks *)

Definition plain_email : Email.t :=
  Email.mk 1 (Some "news@newsletter.example.com") (Some "me@example.com")
    (Some "Hello") None None.

(** A rule that matches every message and has no action. *)
Definition rule_without_actions : Rule.t := Rule.mk "R0" "all" [] [].

Definition newsletter_rule : Rule.t :=
  Rule.mk "R1" "all" [Condition.mk "from" "contains" "newsletter" None]
    [Action.mk "mark_as_read" None].

Definition hello_rule : Rule.t :=
  Rule.mk "R2" "any"
    [Condition.mk "subject" "equals" "hello" None;
     Condition.mk "to" "contains" "nobody" None]
    [Action.mk "move_message" (Some "Greetings");
     Action.mk "mark_as_unread" None].

Definition two_rules_plan : action_plan :=
  {[ 1 := [ mk_applied (Action.mk "mark_as_read" None) "R1";
            mk_applied (Action.mk "move_message" (Some "Greetings")) "R2";
            mk_applied (Action.mk "mark_as_unread" None) "R2" ] ]}.

Definition day (k : Z) : datetime := k * us_per_day.



Definition standing_clock : nat -> datetime := fun _ => day 0.

Definition advancing_clock : nat -> datetime := fun k => day (Z.of_nat k).

(** The second condition names an unknown field, but the first one already
    decides the rule on a message whose subject is not [goodbye]. *)
Definition guarded_cc_rule : Rule.t :=
  Rule.mk "R1" "all"
    [Condition.mk "subject" "equals" "goodbye" None;
     Condition.mk "cc" "contains" "boss" None]
    [Action.mk "mark_as_read" None].

(** An unknown date predicate and an unknown unit. *)
Definition weeks_rule : Rule.t :=
  Rule.mk "R2" "any"
    [Condition.mk "received_date" "older_than" "7" (Some "weeks")]
    [Action.mk "mark_as_read" None].

Definition cc_rule : Rule.t :=
  Rule.mk "R3" "all"
    [Condition.mk "subject" "equals" "hello" None;
     Condition.mk "cc" "contains" "boss" None]
    [Action.mk "mark_as_read" None].

(** ** Notions of the further properties *)

(** The outcome with the truth value negated; an exception stays. *)
Definition negated (r : result bool * nat) : result bool * nat :=
  match r with
  | (Ok b, t) => (Ok (negb b), t)
  | (Raise x, t) => (Raise x, t)
  end.

(** The condition is on the date of the message. *)
Definition is_date_condition (c : Condition.t) : bool :=
  str_eqb (py_lower (Condition.field c)) "received_date".

(** The number of date conditions of a rule and of a rule set. *)
Definition date_count (cs : list Condition.t) : nat :=
  sum_list_with (fun c => if is_date_condition c then 1%nat else 0%nat) cs.

Definition date_conditions (rules : list Rule.t) : nat :=
  sum_list_with (fun r => date_count (Rule.conditions r)) rules.

Definition email_without_subject : Email.t :=
  Email.mk 2 (Some "a@example.com") (Some "b@example.com") None None None.

(** ** Executing the plan (src/actions.py, src/db.py)

    The database is the list of the rows of the [emails] table and the
    list of the rows of the [action_logs] table; its sessions are taken to
    work.  The Gmail client is outside the repository: a call of it
    either returns or raises an exception, of which the code uses only
    [str(e)], and may change the remote mailbox. *)

Module Row.
(** A row of the [emails] table. *)
Record t : Type := mk {
  id : Z;
  message_id : string;
  thread_id : option string;
  from_address : option string;
  to_address : option string;
  subject : option string;
  snippet : option string;
  body_text : option string;
  body_html : option string;
  received_date : option datetime;
  is_read : bool;
  labels : option string
}.

Definition set_is_read (b : bool) (r : t) : t :=
  mk (id r) (message_id r) (thread_id r) (from_address r) (to_address r)
    (subject r) (snippet r) (body_text r) (body_html r) (received_date r)
    b (labels r).

Definition set_labels (l : option string) (r : t) : t :=
  mk (id r) (message_id r) (thread_id r) (from_address r) (to_address r)
    (subject r) (snippet r) (body_text r) (body_html r) (received_date r)
    (is_read r) l.

(** The part of the row that the rule evaluation reads. *)
Definition email (r : t) : Email.t :=
  Email.mk (id r) (from_address r) (to_address r) (subject r) (body_text r)
    (received_date r).
End Row.

Module Log.
(** The columns of an [action_logs] row that [log_action] sets. *)
Record t : Type := mk {
  email_id : Z;
  action_type : string;
  rule_id : string;
  action_details : string;
  success : bool;
  error_message : option string
}.
End Log.

Module Label.
(** A label of the mailbox, as the Gmail client lists it. *)
Record t : Type := mk {
  name : string;
  id : string
}.
End Label.

Module Result.
(** The dictionary that an action returns. *)
Record t : Type := mk {
  success : bool;
  message : string
}.
End Result.

(** A call of the Gmail client returns, or raises an exception [e] with
    [str(e) = msg]. *)
Inductive outcome (A : Type) : Type :=
| Done (a : A)
| Failed (msg : string).
Arguments Done {A} a.
Arguments Failed {A} msg.

(** [str(n)] for an [int], and the text that an f-string gives for a
    nullable column. *)
Definition py_str_int (n : Z) : string := pretty n.

Definition py_str_opt (s : option string) : string := default "None" s.

(** [s.split(sep)] for a one-character separator. *)
Fixpoint py_split (sep : ascii) (s : string) : list string :=
  match s with
  | EmptyString => [EmptyString]
  | String c s' =>
      if Ascii.eqb c sep then EmptyString :: py_split sep s'
      else
        match py_split sep s' with
        | x :: xs => String c x :: xs
        | [] => [String c EmptyString]
        end
  end.

(** [sep.join(l)] *)
Fixpoint py_join (sep : string) (l : list string) : string :=
  match l with
  | [] => EmptyString
  | [x] => x
  | x :: xs => x +:+ sep +:+ py_join sep xs
  end.

(** [l.remove(x)] when [x in l]: the first occurrence goes. *)
Fixpoint list_remove (x : string) (l : list string) : list string :=
  match l with
  | [] => []
  | y :: l' => if str_eqb y x then l' else y :: list_remove x l'
  end.

Definition list_mem (x : string) (l : list string) : bool :=
  existsb (str_eqb x) l.

(** [email.labels.split(',') if email.labels else []] *)
Definition label_list (labels : option string) : list string :=
  match labels with
  | None | Some EmptyString => []
  | Some s => py_split "," s
  end.

(** The labels that [move_message] writes back to the row. *)
Definition moved_labels (label_id : string) (labels : option string)
    : string :=
  let labels := label_list labels in
  let labels :=
    if list_mem "INBOX" labels then list_remove "INBOX" labels else labels in
  let labels :=
    if negb (list_mem label_id labels) then labels ++ [label_id]
    else labels in
  py_join "," labels.

(** [query(Email).filter(Email.id == email_id).first()] *)
Definition find_email (email_id : Z) (rows : list Row.t) : option Row.t :=
  List.find (fun r => bool_decide (Row.id r = email_id)) rows.

(** An assignment to a column of the row that [first()] returns, and the
    commit. *)
Fixpoint update_email (email_id : Z) (f : Row.t -> Row.t) (rows : list Row.t)
    : list Row.t :=
  match rows with
  | [] => []
  | r :: rows' =>
      if bool_decide (Row.id r = email_id) then f r :: rows'
      else r :: update_email email_id f rows'
  end.

(** A Python [dict] with its insertion order: [d[k] = v] and
    [d[k].append(x)]. *)
Fixpoint dict_set {V : Type} (k : Z) (v : V) (d : list (Z * V))
    : list (Z * V) :=
  match d with
  | [] => [(k, v)]
  | (k', v') :: d' =>
      if bool_decide (k' = k) then (k, v) :: d'
      else (k', v') :: dict_set k v d'
  end.

Fixpoint dict_append {V : Type} (k : Z) (x : V) (d : list (Z * list V))
    : list (Z * list V) :=
  match d with
  | [] => []
  | (k', v') :: d' =>
      if bool_decide (k' = k) then (k', v' ++ [x]) :: d'
      else (k', v') :: dict_append k x d'
  end.

Section Actions.

(** The remote mailbox and the calls of the Gmail client. *)
Variable world : Type.
Variable get_gmail_service : world -> outcome unit * world.
Variable messages_modify :
  string -> list string -> list string -> world -> outcome unit * world.
Variable labels_list : world -> outcome (list Label.t) * world.
Variable labels_create : string -> world -> outcome Label.t * world.

(** [config.DRY_RUN] *)
Variable DRY_RUN : bool.

Record state : Type := mk_state {
  emails : list Row.t;
  action_logs : list Log.t;
  remote : world
}.

Definition log_action (email_id : Z) (action_type rule_id action_details : string)
    (success : bool) (error_message : option string) (s : state) : state :=
  mk_state (emails s)
    (action_logs s
     ++ [Log.mk email_id action_type rule_id action_details success
           error_message])
    (remote s).

Definition email_not_found (email_id : Z) : Result.t :=
  Result.mk false ("Email with ID " +:+ py_str_int email_id +:+ " not found").

Definition mark_as_read (email_id : Z) (rule_id : string) (s : state)
    : Result.t * state :=
  match find_email email_id (emails s) with
  | None => (email_not_found email_id, s)
  | Some email =>
      let message_id := Row.message_id email in
      let subject := py_str_opt (Row.subject email) in
      let is_already_read := Row.is_read email in
      if DRY_RUN then
        let text := "Would mark email '" +:+ subject +:+ "' as read (DRY RUN)" in
        (Result.mk true text,
         log_action email_id "mark_as_read" rule_id text true None s)
      else if is_already_read then
        (Result.mk true "Email is already marked as read",
         log_action email_id "mark_as_read" rule_id
           ("Email '" +:+ subject +:+ "' is already marked as read")
           true None s)
      else
        let failed (msg : string) (w : world) :=
          (Result.mk false ("Error: " +:+ msg),
           log_action email_id "mark_as_read" rule_id
             "Failed to mark email as read" false (Some msg)
             (mk_state (emails s) (action_logs s) w)) in
        match get_gmail_service (remote s) with
        | (Failed msg, w) => failed msg w
        | (Done _, w) =>
            match messages_modify message_id [] ["UNREAD"] w with
            | (Failed msg, w') => failed msg w'
            | (Done _, w') =>
                (Result.mk true "Marked email as read",
                 log_action email_id "mark_as_read" rule_id
                   ("Marked email '" +:+ subject +:+ "' as read") true None
                   (mk_state
                      (update_email email_id (Row.set_is_read true) (emails s))
                      (action_logs s) w'))
            end
        end
  end.

Definition mark_as_unread (email_id : Z) (rule_id : string) (s : state)
    : Result.t * state :=
  match find_email email_id (emails s) with
  | None => (email_not_found email_id, s)
  | Some email =>
      let message_id := Row.message_id email in
      let subject := py_str_opt (Row.subject email) in
      let is_already_unread := negb (Row.is_read email) in
      if DRY_RUN then
        let text :=
          "Would mark email '" +:+ subject +:+ "' as unread (DRY RUN)" in
        (Result.mk true text,
         log_action email_id "mark_as_unread" rule_id text true None s)
      else if is_already_unread then
        (Result.mk true "Email is already marked as unread",
         log_action email_id "mark_as_unread" rule_id
           ("Email '" +:+ subject +:+ "' is already marked as unread")
           true None s)
      else
        let failed (msg : string) (w : world) :=
          (Result.mk false ("Error: " +:+ msg),
           log_action email_id "mark_as_unread" rule_id
             "Failed to mark email as unread" false (Some msg)
             (mk_state (emails s) (action_logs s) w)) in
        match get_gmail_service (remote s) with
        | (Failed msg, w) => failed msg w
        | (Done _, w) =>
            match messages_modify message_id ["UNREAD"] [] w with
            | (Failed msg, w') => failed msg w'
            | (Done _, w') =>
                (Result.mk true "Marked email as unread",
                 log_action email_id "mark_as_unread" rule_id
                   ("Marked email '" +:+ subject +:+ "' as unread") true None
                   (mk_state
                      (update_email email_id (Row.set_is_read false) (emails s))
                      (action_logs s) w'))
            end
        end
  end.

(** The loop over the labels of the mailbox: the identifier of the first
    label whose name is [destination] up to case. *)
Fixpoint find_label (destination : string) (labels : list Label.t)
    : option string :=
  match labels with
  | [] => None
  | label :: labels' =>
      if str_eqb (py_lower (Label.name label)) (py_lower destination) then
        Some (Label.id label)
      else find_label destination labels'
  end.

(** [not label_id] *)
Definition no_label (label_id : option string) : bool :=
  match label_id with
  | None | Some EmptyString => true
  | Some _ => false
  end.

Definition move_message (email_id : Z) (destination rule_id : string)
    (s : state) : Result.t * state :=
  match find_email email_id (emails s) with
  | None => (email_not_found email_id, s)
  | Some email =>
      let message_id := Row.message_id email in
      let subject := py_str_opt (Row.subject email) in
      if DRY_RUN then
        let text :=
          "Would move email '" +:+ subject +:+ "' to '" +:+ destination
          +:+ "' (DRY RUN)" in
        (Result.mk true text,
         log_action email_id "move_message" rule_id text true None s)
      else
        let failed (msg : string) (w : world) :=
          (Result.mk false ("Error: " +:+ msg),
           log_action email_id "move_message" rule_id
             ("Failed to move email to '" +:+ destination +:+ "'") false
             (Some msg) (mk_state (emails s) (action_logs s) w)) in
        let move (label_id : string) (w : world) :=
          match messages_modify message_id [label_id] ["INBOX"] w with
          | (Failed msg, w') => failed msg w'
          | (Done _, w') =>
              (Result.mk true ("Moved email to '" +:+ destination +:+ "'"),
               log_action email_id "move_message" rule_id
                 ("Moved email '" +:+ subject +:+ "' to '" +:+ destination
                  +:+ "'")
                 true None
                 (mk_state
                    (update_email email_id
                       (fun r =>
                          Row.set_labels
                            (Some (moved_labels label_id (Row.labels r))) r)
                       (emails s))
                    (action_logs s) w'))
          end in
        match get_gmail_service (remote s) with
        | (Failed msg, w) => failed msg w
        | (Done _, w) =>
            match labels_list w with
            | (Failed msg, w1) => failed msg w1
            | (Done labels, w1) =>
                let label_id := find_label destination labels in
                if no_label label_id then
                  match labels_create destination w1 with
                  | (Failed msg, w2) => failed msg w2
                  | (Done label, w2) => move (Label.id label) w2
                  end
                else move (default "" label_id) w1
            end
        end
  end.

(** The body of the loop over the actions of one email. *)
Definition run_action (email_id : Z) (action_info : applied) (s : state)
    : Result.t * state :=
  let action := action action_info in
  let rule_id := rule_id action_info in
  let action_type := Action.type action in
  if str_eqb action_type "mark_as_read" then mark_as_read email_id rule_id s
  else if str_eqb action_type "mark_as_unread" then
    mark_as_unread email_id rule_id s
  else if str_eqb action_type "move_message" then
    move_message email_id (default "" (Action.destination action)) rule_id s
  else (Result.mk false ("Unknown action type: " +:+ action_type), s).

Fixpoint run_actions (email_id : Z) (actions : list applied)
    (results : list (Z * list Result.t)) (s : state)
    : list (Z * list Result.t) * state :=
  match actions with
  | [] => (results, s)
  | action_info :: actions' =>
      let '(result, s') := run_action email_id action_info s in
      run_actions email_id actions' (dict_append email_id result results) s'
  end.

(** The loop over [email_actions.items()]. *)
Fixpoint execute_items (items : list (Z * list applied))
    (results : list (Z * list Result.t)) (s : state)
    : list (Z * list Result.t) * state :=
  match items with
  | [] => (results, s)
  | (email_id, actions) :: items' =>
      let '(results', s') :=
        run_actions email_id actions (dict_set email_id [] results) s in
      execute_items items' results' s'
  end.

Definition execute_actions (email_actions : list (Z * list applied))
    (s : state) : list (Z * list Result.t) * state :=
  execute_items email_actions [] s.

End Actions.

Arguments emails {world} s.
Arguments action_logs {world} s.
Arguments remote {world} s.
Arguments mk_state {world} emails action_logs remote.

(** Two rows are the same message when they agree on every column but
    [is_read] and [labels]. *)
Definition same_message (r r' : Row.t) : Prop :=
  Row.set_labels None (Row.set_is_read false r)
  = Row.set_labels None (Row.set_is_read false r').




Definition action_types : list string :=
  ["mark_as_read"; "mark_as_unread"; "move_message"].

(** A run leaves the stored messages and the remote mailbox as they are
    and adds rows to the log, all of them of successes. *)
Definition dry_keeps {world : Type} (s s' : state world) : Prop :=
  emails s' = emails s
  /\ remote s' = remote s
  /\ exists new, action_logs s' = action_logs s ++ new
                 /\ Forall (fun l => Log.success l = true) new.

(** The text has no comma. *)
Definition comma_free (x : string) : Prop := py_in "," x = false.

(** A small mailbox for the examples: every call of the client works, and
    the mailbox counts the calls. *)
Definition counting_service : nat -> outcome unit * nat :=
  fun w => (Done tt, S w).

Definition counting_modify
    : string -> list string -> list string -> nat -> outcome unit * nat :=
  fun _ _ _ w => (Done tt, S w).

Definition counting_labels : nat -> outcome (list Label.t) * nat :=
  fun w => (Done [Label.mk "Work" "Label_1"], S w).

Definition counting_create : string -> nat -> outcome Label.t * nat :=
  fun name w => (Done (Label.mk name "Label_2"), S w).

Definition unread_row : Row.t :=
  Row.mk 1 "m1" (Some "t1") (Some "news@newsletter.example.com")
    (Some "me@example.com") (Some "Hello") (Some "Hi") None None None false
    (Some "INBOX,UNREAD").

Definition sample_state : state nat := mk_state [unread_row] [] 0%nat.

Definition sample_plan : list (Z * list applied) :=
  [(1, [mk_applied (Action.mk "mark_as_read" None) "R1";
        mk_applied (Action.mk "move_message" (Some "work")) "R2"]);
   (5, [mk_applied (Action.mk "archive" None) "R3"])].

(** A mailbox that refuses every change of a message. *)
Definition failing_modify
    : string -> list string -> list string -> nat -> outcome unit * nat :=
  fun _ _ _ w => (Failed "quota exceeded", S w).

(** ** Fetching and storing (src/email_fetcher.py, src/db.py)

    A message of the Gmail client is the dictionary that
    [messages().get(format='full')] returns, with the keys that [parse_email]
    subscripts present and the keys that it tests or reads with [get]
    optional.  [parsedate_to_datetime] and the decoding of a body
    ([urlsafe_b64decode] of the ASCII text, then [decode('utf-8')]) are
    library functions: they return, or raise. *)

Module Header.
Record t : Type := mk {
  name : string;
  value : string
}.
End Header.

Module Body.
Record t : Type := mk {
  data : option string
}.
End Body.

Module Part.
Record t : Type := mk {
  mimeType : string;
  body : Body.t
}.
End Part.

Module Payload.
Record t : Type := mk {
  headers : list Header.t;
  parts : option (list Part.t);
  body : option Body.t;
  mimeType : string
}.
End Payload.

Module Message.
Record t : Type := mk {
  id : string;
  threadId : string;
  labelIds : option (list string);
  snippet : option string;
  payload : Payload.t
}.
End Message.

Module EmailData.
(** The dictionary that [parse_email] returns. *)
Record t : Type := mk {
  message_id : string;
  thread_id : string;
  from_address : string;
  to_address : string;
  subject : string;
  snippet : string;
  body_text : option string;
  body_html : option string;
  received_date : option datetime;
  is_read : bool;
  labels : string
}.
End EmailData.

(** A dictionary with string keys: [d[k] = v] and [d.get(k)]. *)
Fixpoint sdict_set (k v : string) (d : list (string * string))
    : list (string * string) :=
  match d with
  | [] => [(k, v)]
  | (k', v') :: d' =>
      if str_eqb k' k then (k, v) :: d' else (k', v') :: sdict_set k v d'
  end.

Fixpoint sdict_get (k : string) (d : list (string * string)) : option string :=
  match d with
  | [] => None
  | (k', v') :: d' => if str_eqb k' k then Some v' else sdict_get k d'
  end.

(** [{header['name']: header['value'] for header in headers}] *)
Definition headers_dict (headers : list Header.t) : list (string * string) :=
  foldl (fun d h => sdict_set (Header.name h) (Header.value h) d) [] headers.

(** A library call, which returns or raises, as a computation. *)
Definition lift {A} (r : result A) : M A := fun t => (r, t).

Section Fetch.

Variable clock : nat -> datetime.

(** [None] when [parsedate_to_datetime] raises. *)
Variable parsedate_to_datetime : string -> option datetime.

Variable decode_body : string -> result string.

(** The loop over [msg['payload']['parts']]. *)
Fixpoint parse_parts (parts : list Part.t) (body_text body_html : option string)
    : M (option string * option string) :=
  match parts with
  | [] => ret (body_text, body_html)
  | part :: parts' =>
      match Body.data (Part.body part) with
      | Some data =>
          if str_eqb (Part.mimeType part) "text/plain" then
            text <- lift (decode_body data) ;;
            parse_parts parts' (Some text) body_html
          else if str_eqb (Part.mimeType part) "text/html" then
            html <- lift (decode_body data) ;;
            parse_parts parts' body_text (Some html)
          else parse_parts parts' body_text body_html
      | None => parse_parts parts' body_text body_html
      end
  end.

Definition parse_email (msg : Message.t) : M EmailData.t :=
  let payload := Message.payload msg in
  let headers := headers_dict (Payload.headers payload) in
  received_date <-
    match sdict_get "Date" headers with
    | Some date =>
        match parsedate_to_datetime date with
        | Some d => ret (Some d)
        | None => now <- utcnow clock ;; ret (Some now)
        end
    | None => ret None
    end ;;
  let label_ids := default [] (Message.labelIds msg) in
  let labels := py_join "," label_ids in
  let is_read := negb (list_mem "UNREAD" label_ids) in
  bodies <-
    match Payload.parts payload with
    | Some parts => parse_parts parts None None
    | None =>
        match Payload.body payload with
        | Some (Body.mk (Some data)) =>
            body_data <- lift (decode_body data) ;;
            if str_eqb (Payload.mimeType payload) "text/plain" then
              ret (Some body_data, None)
            else if str_eqb (Payload.mimeType payload) "text/html" then
              ret (None, Some body_data)
            else ret (None, None)
        | _ => ret (None, None)
        end
    end ;;
  ret (EmailData.mk (Message.id msg) (Message.threadId msg)
         (default "" (sdict_get "From" headers))
         (default "" (sdict_get "To" headers))
         (default "(No Subject)" (sdict_get "Subject" headers))
         (default "" (Message.snippet msg))
         bodies.1 bodies.2 received_date is_read labels).

End Fetch.

(** The row that [Email] makes of the keys of [email_data], and the row
    after [setattr] of every key of [email_data]. *)
Definition data_row (id : Z) (data : EmailData.t) : Row.t :=
  Row.mk id (EmailData.message_id data) (Some (EmailData.thread_id data))
    (Some (EmailData.from_address data)) (Some (EmailData.to_address data))
    (Some (EmailData.subject data)) (Some (EmailData.snippet data))
    (EmailData.body_text data) (EmailData.body_html data)
    (EmailData.received_date data) (EmailData.is_read data)
    (Some (EmailData.labels data)).

(** [query(Email).filter_by(message_id=...).first()] *)
Definition find_message (message_id : string) (rows : list Row.t)
    : option Row.t :=
  List.find (fun r => str_eqb (Row.message_id r) message_id) rows.

Fixpoint update_message (message_id : string) (f : Row.t -> Row.t)
    (rows : list Row.t) : list Row.t :=
  match rows with
  | [] => []
  | r :: rows' =>
      if str_eqb (Row.message_id r) message_id then f r :: rows'
      else r :: update_message message_id f rows'
  end.

Section Store.

(** The primary key that the database gives to a new row. *)
Variable new_id : list Row.t -> Z.

(** [store_email]: the identifier of the stored row and the table
    after the commit. *)
Definition store_email (email_data : EmailData.t) (rows : list Row.t)
    : Z * list Row.t :=
  match find_message (EmailData.message_id email_data) rows with
  | Some existing_email =>
      (Row.id existing_email,
       update_message (EmailData.message_id email_data)
         (fun r => data_row (Row.id r) email_data) rows)
  | None =>
      let email_id := new_id rows in
      (email_id, rows ++ [data_row email_id email_data])
  end.

End Store.

(** The value of the last header of [headers] whose name is [k]. *)
Fixpoint last_header (k : string) (headers : list Header.t) : option string :=
  match headers with
  | [] => None
  | h :: headers' =>
      match last_header k headers' with
      | Some v => Some v
      | None => if str_eqb (Header.name h) k then Some (Header.value h) else None
      end
  end.

(** The table after [store_email] of each element of [datas] in turn,
    from an empty table. *)
Definition stored_table (new_id : list Row.t -> Z) (datas : list EmailData.t)
    : list Row.t :=
  foldl (fun rows data => (store_email new_id data rows).2) [] datas.

(** The columns [from_address], [to_address] and [subject] are not null. *)
Definition addressed (e : Email.t) : Prop :=
  is_Some (Email.from_address e) /\ is_Some (Email.to_address e)
  /\ is_Some (Email.subject e).

Definition sample_message : Message.t :=
  Message.mk "m1" "t1" (Some ["INBOX"; "UNREAD"]) (Some "Hi")
    (Payload.mk
       [Header.mk "From" "old@example.com"; Header.mk "Date" "yesterday";
        Header.mk "from" "lower@example.com";
        Header.mk "From" "news@newsletter.example.com"]
       None (Some (Body.mk (Some "SGk="))) "text/plain").

Definition sample_parsedate : string -> option datetime := fun _ => None.

Definition sample_decode : string -> result string := fun _ => Ok "Hi".

Definition sample_data : EmailData.t :=
  EmailData.mk "m1" "t1" "news@newsletter.example.com" "" "(No Subject)" "Hi"
    (Some "Hi") None (Some (day 3)) false "INBOX,UNREAD".

Definition next_row_id (rows : list Row.t) : Z :=
  1 + foldr Z.max 0 (map Row.id rows).

(** ** Basic facts *)

Lemma str_eqb_eq (a b : string) : a = b -> str_eqb a b = true.
Proof. intros ->. unfold str_eqb. apply bool_decide_eq_true_2. reflexivity. Qed.

Lemma str_eqb_ne (a b : string) : a <> b -> str_eqb a b = false.
Proof. intros H. unfold str_eqb. apply bool_decide_eq_false_2. exact H. Qed.

Lemma str_eqb_true (a b : string) : str_eqb a b = true <-> a = b.
Proof. unfold str_eqb. apply bool_decide_eq_true. Qed.

Lemma str_eqb_false (a b : string) : str_eqb a b = false <-> a <> b.
Proof. unfold str_eqb. apply bool_decide_eq_false. Qed.

(** Decide every comparison of strings that the goal tests. *)
Ltac str_cases :=
  repeat match goal with
    | |- context [str_eqb ?a ?b] =>
        first
          [ rewrite (str_eqb_eq a b) by (assumption || reflexivity)
          | rewrite (str_eqb_ne a b) by (assumption || congruence || discriminate) ]
    end.

Lemma bind_ret {A B} (a : A) (f : A -> M B) (t : nat) :
  bind (ret a) f t = f a t.
Proof. reflexivity. Qed.

Lemma bind_raise {A B} (e : exn) (f : A -> M B) (t : nat) :
  bind (raise e) f t = (Raise e, t).
Proof. reflexivity. Qed.

Lemma bind_ok {A B} (m : M A) (f : A -> M B) (t t' : nat) (a : A) :
  m t = (Ok a, t') -> bind m f t = f a t'.
Proof. intros H. unfold bind. rewrite H. reflexivity. Qed.

Lemma bind_err {A B} (m : M A) (f : A -> M B) (t t' : nat) (e : exn) :
  m t = (Raise e, t') -> bind m f t = (Raise e, t').
Proof. intros H. unfold bind. rewrite H. reflexivity. Qed.

(** ** Date conditions *)

(** C5. A date condition on a message without [received_date], or with a
    comparison value that [int()] rejects, evaluates to false: no error is
    raised and the clock is not read, whatever the predicate, the unit and
    the value are. *)
Theorem date_condition_soft_false (clock : nat -> datetime)
    (c : Condition.t) (e : Email.t) (t : nat) :
  py_lower (Condition.field c) = "received_date" ->
  Email.received_date e = None \/ py_int (Condition.value c) = None ->
  _condition_matches clock c e t = (Ok false, t).
Proof.
  intros Hf Hsoft. unfold _condition_matches. rewrite Hf. str_cases.
  unfold _check_date_condition.
  destruct (Email.received_date e) as [d|]; [|reflexivity].
  destruct Hsoft as [Hd|Hv]; [discriminate|]. rewrite Hv. reflexivity.
Qed.

Lemma date_condition_soft_false_witness :
  _condition_matches (fun _ => 0)
    (Condition.mk "Received_Date" "no_such_predicate" "7" (Some "weeks"))
    (Email.mk 1 None None None None None) 0%nat = (Ok false, 0%nat)
  /\ _condition_matches (fun _ => 0)
       (Condition.mk "received_date" "less_than" "seven" None)
       (Email.mk 1 None None None None (Some 0)) 0%nat = (Ok false, 0%nat).
Proof.
  split.
  - apply date_condition_soft_false; [reflexivity | left; reflexivity].
  - apply date_condition_soft_false; [reflexivity | right; reflexivity].
Defined.

(** C6. With unit [months] the elapsed time is the number of whole days
    from [received_date] to now, floor-divided by 30, compared strictly:
    59 days are 1 month, which is less than 2; 60 days are 2 months, which
    is not. *)
Theorem months_is_days_div_30 (clock : nat -> datetime) (value : string)
    (v : Z) (d : datetime) (t : nat) :
  py_int value = Some v ->
  let elapsed := days_between (clock t) d / 30 in
  _check_date_condition clock "less_than" value "months" (Some d) t
    = (Ok (elapsed <? v)%Z, S t)
  /\ _check_date_condition clock "greater_than" value "months" (Some d) t
    = (Ok (elapsed >? v)%Z, S t)
  /\ (days_between (clock t) d = 59 ->
      _check_date_condition clock "less_than" "2" "months" (Some d) t
        = (Ok true, S t))
  /\ (days_between (clock t) d = 60 ->
      _check_date_condition clock "less_than" "2" "months" (Some d) t
        = (Ok false, S t)).
Proof.
  intros Hv elapsed. unfold _check_date_condition. rewrite Hv.
  change (py_int "2") with (Some 2).
  unfold bind, utcnow, ret. str_cases. fold elapsed.
  repeat split.
  - intros H. subst elapsed. rewrite H. reflexivity.
  - intros H. subst elapsed. rewrite H. reflexivity.
Qed.

Lemma months_is_days_div_30_witness :
  _check_date_condition (fun _ => 59 * us_per_day + 5) "less_than" "2"
    "months" (Some 0) 0%nat = (Ok true, 1%nat)
  /\ _check_date_condition (fun _ => 60 * us_per_day) "less_than" "2"
    "months" (Some 0) 0%nat = (Ok false, 1%nat).
Proof.
  split.
  - apply (months_is_days_div_30 (fun _ => 59 * us_per_day + 5) "2" 2 0 0%nat);
      reflexivity.
  - apply (months_is_days_div_30 (fun _ => 60 * us_per_day) "2" 2 0 0%nat);
      reflexivity.
Defined.

(** ** Combinators *)

(** C7. A rule without conditions matches every message under [all] and no
    message under [any]. *)
Theorem empty_conditions (clock : nat -> datetime) (r : Rule.t)
    (e : Email.t) (t : nat) :
  Rule.conditions r = [] ->
  (Rule.predicate r = "all" -> _rule_applies clock r e t = (Ok true, t))
  /\ (Rule.predicate r = "any" -> _rule_applies clock r e t = (Ok false, t)).
Proof.
  intros Hc. unfold _rule_applies. rewrite Hc.
  split; intros ->; str_cases; reflexivity.
Qed.

Lemma empty_conditions_witness :
  _rule_applies (fun _ => 0) (Rule.mk "R1" "all" [] [])
    (Email.mk 1 None None None None None) 0%nat = (Ok true, 0%nat)
  /\ _rule_applies (fun _ => 0) (Rule.mk "R2" "any" [] [])
    (Email.mk 1 None None None None None) 0%nat = (Ok false, 0%nat).
Proof.
  split.
  - apply (empty_conditions (fun _ => 0) (Rule.mk "R1" "all" [] []));
      reflexivity.
  - apply (empty_conditions (fun _ => 0) (Rule.mk "R2" "any" [] []));
      reflexivity.
Defined.

(** ** String conditions *)

Lemma prefix_spec (a b : string) :
  String.prefix a b = true <-> exists post, b = a +:+ post.
Proof.
  revert b. induction a as [|x a IH]; intros b; simpl.
  - split; [intros _; exists b; reflexivity | intros _; destruct b; reflexivity].
  - destruct b as [|y b].
    + split; [discriminate | intros [post H]; discriminate].
    + simpl. destruct (Ascii.ascii_dec x y) as [->|Hxy].
      * rewrite IH. split; intros [post H]; exists post.
        -- rewrite H. reflexivity.
        -- injection H as H. exact H.
      * split; [discriminate|]. intros [post H]. injection H as H1 H2.
        congruence.
Qed.

Lemma py_in_spec (a b : string) : py_in a b = true <-> is_substring a b.
Proof.
  unfold is_substring. induction b as [|y b IH]; cbn [py_in].
  - rewrite orb_false_r, prefix_spec. split.
    + intros [post H]. exists "", post. exact H.
    + intros [pre [post H]]. destruct pre; [exists post; exact H|discriminate].
  - rewrite orb_true_iff, prefix_spec, IH. split.
    + intros [[post H]|[pre [post H]]].
      * exists "", post. exact H.
      * exists (String y pre), post. simpl. rewrite H. reflexivity.
    + intros [pre [post H]]. destruct pre as [|x pre].
      * left. exists post. exact H.
      * right. injection H as _ H. exists pre, post. exact H.
Qed.

Lemma string_condition_dispatch (clock : nat -> datetime) (c : Condition.t)
    (e : Email.t) (fv : string) :
  field_value e (py_lower (Condition.field c)) fv ->
  _condition_matches clock c e
  = check_string_condition (py_lower (Condition.predicate c))
      (Condition.value c) (Some fv).
Proof.
  intros H. unfold _condition_matches.
  remember (py_lower (Condition.field c)) as fld eqn:Hf.
  destruct H as [s Hs|s Hs|s Hs|]; str_cases; rewrite ?Hs; reflexivity.
Qed.

(** C8. A string condition compares the lower-cased condition value with
    the lower-cased field value: [contains] and [does_not_contain] test
    whether the former is a substring of the latter, [equals] and
    [does_not_equal] whether the two are the same string.  So a subject
    [Hello] matches [contains hello]. *)
Theorem string_condition_case_insensitive (clock : nat -> datetime)
    (c : Condition.t) (e : Email.t) (fv : string) (t : nat) :
  field_value e (py_lower (Condition.field c)) fv ->
  let v := py_lower (Condition.value c) in
  let f := py_lower fv in
  let p := py_lower (Condition.predicate c) in
  (p = "contains" ->
   exists b, _condition_matches clock c e t = (Ok b, t)
             /\ (b = true <-> is_substring v f))
  /\ (p = "does_not_contain" ->
      exists b, _condition_matches clock c e t = (Ok b, t)
                /\ (b = true <-> ~ is_substring v f))
  /\ (p = "equals" ->
      exists b, _condition_matches clock c e t = (Ok b, t)
                /\ (b = true <-> v = f))
  /\ (p = "does_not_equal" ->
      exists b, _condition_matches clock c e t = (Ok b, t)
                /\ (b = true <-> v <> f))
  /\ (Email.subject e = Some "Hello" ->
      _condition_matches clock (Condition.mk "subject" "contains" "hello" None)
        e t = (Ok true, t)).
Proof.
  intros Hfv v f p.
  rewrite (string_condition_dispatch clock c e fv Hfv). fold p.
  unfold check_string_condition. fold v f.
  repeat split.
  - intros ->. str_cases. eexists; split; [reflexivity|]. apply py_in_spec.
  - intros ->. str_cases. eexists; split; [reflexivity|].
    rewrite negb_true_iff, <- not_true_iff_false, py_in_spec. reflexivity.
  - intros ->. str_cases. eexists; split; [reflexivity|]. apply str_eqb_true.
  - intros ->. str_cases. eexists; split; [reflexivity|].
    rewrite negb_true_iff. apply str_eqb_false.
  - intros Hs. unfold _condition_matches. simpl py_lower. str_cases.
    rewrite Hs. reflexivity.
Qed.

Lemma string_condition_case_insensitive_witness :
  exists b,
    _condition_matches (fun _ => 0)
      (Condition.mk "From" "Contains" "NEWSLETTER" None)
      (Email.mk 1 (Some "news@Newsletter.example.com") None None None None)
      0%nat = (Ok b, 0%nat)
    /\ (b = true <->
        is_substring "newsletter" "news@newsletter.example.com").
Proof.
  apply (string_condition_case_insensitive (fun _ => 0)
           (Condition.mk "From" "Contains" "NEWSLETTER" None)
           (Email.mk 1 (Some "news@Newsletter.example.com") None None None None)
           "news@Newsletter.example.com" 0%nat).
  - apply fv_from. reflexivity.
  - reflexivity.
Defined.

(** C10. Only [message] reads an absent value as the empty string.  A
    string condition on [from], [to] or [subject] lower-cases the column as
    it is: it returns a truth value when the column is not null, and raises
    [AttributeError] when the column is null. *)
Theorem absent_field_value (clock : nat -> datetime) (c : Condition.t)
    (e : Email.t) (t : nat) :
  let f := py_lower (Condition.field c) in
  let p := py_lower (Condition.predicate c) in
  p ∈ ["contains"; "does_not_contain"; "equals"; "does_not_equal"] ->
  (f = "message" -> Email.body_text e = None ->
   _condition_matches clock c e t
   = check_string_condition p (Condition.value c) (Some "") t
   /\ exists b, _condition_matches clock c e t = (Ok b, t))
  /\ (forall fv, field_value e f fv ->
      exists b, _condition_matches clock c e t = (Ok b, t))
  /\ (f = "from" /\ Email.from_address e = None
      \/ f = "to" /\ Email.to_address e = None
      \/ f = "subject" /\ Email.subject e = None ->
      _condition_matches clock c e t = (Raise AttributeError, t)).
Proof.
  intros f p Hp.
  assert (Hsome : forall s, exists b,
             check_string_condition p (Condition.value c) (Some s) t
             = (Ok b, t)).
  { intros s. unfold check_string_condition.
    repeat (apply elem_of_cons in Hp as [->|Hp]);
      [..|apply elem_of_nil in Hp; contradiction];
      str_cases; eexists; reflexivity. }
  assert (Hnone :
             check_string_condition p (Condition.value c) None t
             = (Raise AttributeError, t)).
  { unfold check_string_condition.
    repeat (apply elem_of_cons in Hp as [->|Hp]);
      [..|apply elem_of_nil in Hp; contradiction];
      str_cases; reflexivity. }
  repeat split.
  - unfold _condition_matches. fold f p. rewrite H, H0. str_cases.
    reflexivity.
  - unfold _condition_matches. fold f p. rewrite H, H0. str_cases.
    apply Hsome.
  - intros fv Hfv. rewrite (string_condition_dispatch clock c e fv Hfv).
    apply Hsome.
  - intros [[Hf Hn]|[[Hf Hn]|[Hf Hn]]]; unfold _condition_matches;
      fold f p; rewrite Hf, Hn; str_cases; exact Hnone.
Qed.

Lemma absent_field_value_witness :
  _condition_matches (fun _ => 0)
    (Condition.mk "subject" "contains" "hello" None)
    (Email.mk 1 (Some "a@b.c") (Some "d@e.f") None None None) 0%nat
  = (Raise AttributeError, 0%nat).
Proof.
  apply (absent_field_value (fun _ => 0)
           (Condition.mk "subject" "contains" "hello" None)
           (Email.mk 1 (Some "a@b.c") (Some "d@e.f") None None None) 0%nat).
  - apply list_elem_of_here.
  - right; right. split; reflexivity.
Defined.

(** ** Selection of the emails *)


(** ** The action plan *)

Section PlanFacts.

Variable clock : nat -> datetime.
Variable rules : list Rule.t.

Lemma matching_rules_sublist (rs : list Rule.t) (e : Email.t) (t : nat) :
  matching_rules clock rs e t `sublist_of` rs.
Proof.
  revert t. induction rs as [|r rs IH]; intros t; cbn [matching_rules].
  - constructor.
  - destruct (_rule_applies clock r e t) as [[[|]|x] t1].
    + apply sublist_skip, IH.
    + apply sublist_cons, IH.
    + apply sublist_nil_l.
Qed.

Lemma matching_rules_applies (rs : list Rule.t) (e : Email.t) (t : nat)
    (r : Rule.t) :
  r ∈ matching_rules clock rs e t ->
  exists u u', _rule_applies clock r e u = (Ok true, u').
Proof.
  revert t. induction rs as [|r0 rs IH]; intros t; cbn [matching_rules].
  - intros H. apply elem_of_nil in H. contradiction.
  - destruct (_rule_applies clock r0 e t) as [[[|]|x] t1] eqn:E.
    + intros H. apply elem_of_cons in H as [->|H]; [eauto|].
      apply (IH t1 H).
    + apply IH.
    + intros H. apply elem_of_nil in H. contradiction.
Qed.

Lemma check_rules_ok (rs : list Rule.t) (e : Email.t) (acc l : list applied)
    (t t' : nat) :
  check_rules clock rs e acc t = (Ok l, t') ->
  l = acc ++ flat_map rule_actions (matching_rules clock rs e t).
Proof.
  revert acc t. induction rs as [|r rs IH]; intros acc t;
    cbn [check_rules matching_rules].
  - intros [= <- _]. cbn. rewrite app_nil_r. reflexivity.
  - unfold bind. destruct (_rule_applies clock r e t) as [[b|x] t1];
      [|discriminate].
    intros H. apply IH in H. destruct b; cbn [flat_map]; [|exact H].
    rewrite H, <- app_assoc. reflexivity.
Qed.

Lemma flat_map_rule_actions_nonempty (rs : list Rule.t) :
  flat_map rule_actions rs <> []
  <-> exists r, r ∈ rs /\ Rule.actions r <> [].
Proof.
  induction rs as [|r rs IH]; cbn [flat_map].
  - split; [congruence|]. intros [r [H _]]. apply elem_of_nil in H.
    contradiction.
  - split.
    + intros H. destruct (Rule.actions r) as [|a l] eqn:E.
      * unfold rule_actions in H. rewrite E in H. cbn in H.
        apply IH in H as [r' [Hin Hne]]. exists r'. split; [|exact Hne].
        apply elem_of_cons. right. exact Hin.
      * exists r. split; [apply list_elem_of_here|]. rewrite E. discriminate.
    + intros [r' [Hin Hne]]. apply elem_of_cons in Hin as [->|Hin].
      * unfold rule_actions. destruct (Rule.actions r); [congruence|].
        discriminate.
      * intros H. apply app_eq_nil in H as [_ H]. revert H. apply IH.
        exists r'. split; assumption.
Qed.

(** The loop over the emails: what the plan holds in terms of what it
    held before and of the emails of the run. *)
Lemma process_emails_lookup (emails : list Email.t) (results plan : action_plan)
    (t t' : nat) (i : Z) :
  process_emails clock rules emails results t = (Ok plan, t') ->
  plan !! i = results !! i
  \/ exists e s, (e, s) ∈ schedule clock rules emails t /\ Email.id e = i
                 /\ collected clock rules e s <> []
                 /\ plan !! i = Some (collected clock rules e s).
Proof.
  revert results t. induction emails as [|e es IH]; intros results t;
    cbn [process_emails schedule].
  - intros [= <- _]. left. reflexivity.
  - unfold bind.
    destruct (check_rules clock rules e [] t) as [[l|x] t1] eqn:E;
      [|discriminate].
    cbn [snd]. intros H. apply IH in H as [H|[e' [s [Hin H]]]].
    + pose proof (check_rules_ok _ _ _ _ _ _ E) as Hl. cbn in Hl.
      fold (collected clock rules e t) in Hl. destruct l as [|a l]; [left; exact H|].
      destruct (decide (Email.id e = i)) as [Hi|Hi].
      * right. exists e, t. rewrite H, Hi, lookup_insert_eq, Hl.
        repeat split; [apply list_elem_of_here|rewrite <- Hl; discriminate].
      * left. rewrite H, lookup_insert_ne by exact Hi. reflexivity.
    + right. exists e', s. split; [|exact H].
      apply elem_of_cons. right. exact Hin.
Qed.

Lemma process_emails_keeps (emails : list Email.t) (results plan : action_plan)
    (t t' : nat) (i : Z) :
  process_emails clock rules emails results t = (Ok plan, t') ->
  is_Some (results !! i) -> is_Some (plan !! i).
Proof.
  revert results t. induction emails as [|e es IH]; intros results t;
    cbn [process_emails].
  - intros [= <- _]. tauto.
  - unfold bind.
    destruct (check_rules clock rules e [] t) as [[l|x] t1];
      [|discriminate].
    intros H Hi. apply (IH _ _ H). destruct l; [exact Hi|].
    rewrite lookup_insert. case_decide; [eauto|exact Hi].
Qed.

Lemma process_emails_records (emails : list Email.t)
    (results plan : action_plan) (t t' : nat) (e : Email.t) (s : nat) :
  process_emails clock rules emails results t = (Ok plan, t') ->
  (e, s) ∈ schedule clock rules emails t -> collected clock rules e s <> [] ->
  is_Some (plan !! Email.id e).
Proof.
  revert results t. induction emails as [|e0 es IH]; intros results t;
    cbn [process_emails schedule].
  - intros _ H. apply elem_of_nil in H. contradiction.
  - unfold bind.
    destruct (check_rules clock rules e0 [] t) as [[l|x] t1] eqn:E;
      [|discriminate].
    cbn [snd]. intros H Hin Hne. apply elem_of_cons in Hin as [[= -> ->]|Hin].
    + apply (process_emails_keeps _ _ _ _ _ _ H).
      apply check_rules_ok in E. cbn in E. fold (collected clock rules e0 t) in E.
      destruct l; [congruence|]. rewrite lookup_insert_eq. eauto.
    + apply (IH _ _ H Hin Hne).
Qed.

Lemma schedule_emails (emails : list Email.t) (t : nat) (e : Email.t)
    (s : nat) :
  (e, s) ∈ schedule clock rules emails t -> e ∈ emails.
Proof.
  revert t. induction emails as [|e0 es IH]; intros t; cbn [schedule].
  - intros H. apply elem_of_nil in H. contradiction.
  - intros H. apply elem_of_cons in H as [[= -> _]|H].
    + apply list_elem_of_here.
    + apply elem_of_cons. right. apply (IH _ H).
Qed.

(** With distinct identifiers, the entry of an email is what the email
    collected clock rules itself. *)
Lemma process_emails_entry (emails : list Email.t)
    (results plan : action_plan) (t t' : nat) (e : Email.t) (s : nat) :
  NoDup (map Email.id emails) ->
  process_emails clock rules emails results t = (Ok plan, t') ->
  (e, s) ∈ schedule clock rules emails t -> collected clock rules e s <> [] ->
  plan !! Email.id e = Some (collected clock rules e s).
Proof.
  revert results t. induction emails as [|e0 es IH]; intros results t;
    cbn [process_emails schedule map].
  - intros _ _ H. apply elem_of_nil in H. contradiction.
  - intros Hnd. apply NoDup_cons in Hnd as [Hnotin Hnd]. unfold bind.
    destruct (check_rules clock rules e0 [] t) as [[l|x] t1] eqn:E;
      [|discriminate].
    cbn [snd]. intros H Hin Hne. apply elem_of_cons in Hin as [[= -> ->]|Hin].
    + destruct (process_emails_lookup _ _ _ _ _ (Email.id e0) H)
        as [Hl|[e' [s' [Hin' [Hid _]]]]].
      * rewrite Hl. apply check_rules_ok in E. cbn in E.
        fold (collected clock rules e0 t) in E. destruct l; [congruence|].
        rewrite lookup_insert_eq, E. reflexivity.
      * exfalso. apply Hnotin. rewrite <- Hid.
        apply list_elem_of_fmap_2. apply (schedule_emails _ _ _ _ Hin').
    + apply (IH _ _ Hnd H Hin Hne).
Qed.

End PlanFacts.

(** C2, as stated, fails: the rule matches the message, but the message is
    not a key of the plan, because the rule has no action. *)
Lemma matched_without_actions_is_absent :
  _rule_applies (fun _ => 0) rule_without_actions plain_email 0%nat
  = (Ok true, 0%nat)
  /\ evaluate_emails (fun _ => 0) [rule_without_actions] [plain_email] None
       0%nat
     = (Ok ∅, 0%nat).
Proof. split; reflexivity. Qed.

(** C2, amended. A message identifier is a key of the plan if and only if
    a rule with at least one action matched a selected message with that
    identifier; no key is mapped to an empty list. *)
Theorem plan_keys (clock : nat -> datetime) (rules : list Rule.t)
    (table : list Email.t) (email_ids : option (list Z)) (t t' : nat)
    (plan : action_plan) (i : Z) :
  evaluate_emails clock rules table email_ids t = (Ok plan, t') ->
  (is_Some (plan !! i)
   <-> exists e s r,
       (e, s) ∈ schedule clock rules (query_emails table email_ids) t
       /\ Email.id e = i
       /\ r ∈ matching_rules clock rules e s
       /\ Rule.actions r <> [])
  /\ plan !! i <> Some [].
Proof.
  unfold evaluate_emails. intros H.
  pose proof (process_emails_lookup _ _ _ _ _ _ _ i H) as Hl.
  rewrite lookup_empty in Hl. split; [split|].
  - intros [l Hs]. destruct Hl as [Hl|[e [s [Hin [Hid [Hne _]]]]]];
      [congruence|].
    apply flat_map_rule_actions_nonempty in Hne as [r [Hr Ha]].
    exists e, s, r. auto.
  - intros [e [s [r [Hin [<- [Hr Ha]]]]]].
    apply (process_emails_records _ _ _ _ _ _ _ _ _ H Hin).
    apply flat_map_rule_actions_nonempty. exists r. auto.
  - destruct Hl as [Hl|[e [s [_ [_ [Hne Hl]]]]]]; rewrite Hl; congruence.
Qed.

Lemma two_rules_run :
  evaluate_emails (fun _ => 0) [newsletter_rule; hello_rule] [plain_email]
    None 0%nat = (Ok two_rules_plan, 0%nat).
Proof. vm_compute. reflexivity. Qed.

Lemma plan_keys_witness :
  (is_Some (two_rules_plan !! 1)
   <-> exists e s r,
       (e, s) ∈ schedule (fun _ => 0) [newsletter_rule; hello_rule]
                 (query_emails [plain_email] None) 0%nat
       /\ Email.id e = 1
       /\ r ∈ matching_rules (fun _ => 0) [newsletter_rule; hello_rule] e s
       /\ Rule.actions r <> [])
  /\ two_rules_plan !! 1 <> Some [].
Proof.
  apply (plan_keys (fun _ => 0) [newsletter_rule; hello_rule] [plain_email]
           None 0%nat 0%nat two_rules_plan 1).
  exact two_rules_run.
Defined.

(** C4. The entry of a message lists, for every rule that matched it, in
    the order of the rule set, one pair per action of the rule, in the
    order of the rule's actions, each with the rule's identifier; with
    distinct message identifiers, every selected message whose matching
    rules have an action has this entry. *)
Theorem plan_entries (clock : nat -> datetime) (rules : list Rule.t)
    (table : list Email.t) (email_ids : option (list Z)) (t t' : nat)
    (plan : action_plan) :
  evaluate_emails clock rules table email_ids t = (Ok plan, t') ->
  let emails := query_emails table email_ids in
  let pairs (r : Rule.t) :=
    map (fun a => mk_applied a (Rule.id r)) (Rule.actions r) in
  (forall i l, plan !! i = Some l ->
     exists e s,
       (e, s) ∈ schedule clock rules emails t /\ Email.id e = i
       /\ matching_rules clock rules e s `sublist_of` rules
       /\ l = flat_map pairs (matching_rules clock rules e s))
  /\ (NoDup (map Email.id emails) ->
      forall e s,
        (e, s) ∈ schedule clock rules emails t ->
        flat_map pairs (matching_rules clock rules e s) <> [] ->
        plan !! Email.id e
        = Some (flat_map pairs (matching_rules clock rules e s))).
Proof.
  unfold evaluate_emails. intros H. split.
  - intros i l Hl.
    destruct (process_emails_lookup _ _ _ _ _ _ _ i H)
      as [Hi|[e [s [Hin [Hid [_ Hi]]]]]].
    + rewrite lookup_empty in Hi. congruence.
    + exists e, s. repeat split; [exact Hin|exact Hid| |].
      * apply matching_rules_sublist.
      * rewrite Hi in Hl. injection Hl as <-. reflexivity.
  - intros Hnd e s Hin Hne.
    apply (process_emails_entry _ _ _ _ _ _ _ _ _ Hnd H Hin Hne).
Qed.

Lemma plan_entries_witness :
  exists e s,
    (e, s) ∈ schedule (fun _ => 0) [newsletter_rule; hello_rule]
              (query_emails [plain_email] None) 0%nat
    /\ Email.id e = 1
    /\ matching_rules (fun _ => 0) [newsletter_rule; hello_rule] e s
         `sublist_of` [newsletter_rule; hello_rule]
    /\ [ mk_applied (Action.mk "mark_as_read" None) "R1";
         mk_applied (Action.mk "move_message" (Some "Greetings")) "R2";
         mk_applied (Action.mk "mark_as_unread" None) "R2" ]
       = flat_map
           (fun r => map (fun a => mk_applied a (Rule.id r)) (Rule.actions r))
           (matching_rules (fun _ => 0) [newsletter_rule; hello_rule] e s).
Proof.
  destruct (plan_entries (fun _ => 0) [newsletter_rule; hello_rule]
              [plain_email] None 0%nat 0%nat two_rules_plan two_rules_run)
    as [Hentry _].
  apply (Hentry 1). vm_compute. reflexivity.
Defined.

(** ** The clock *)

Lemma fst_bind {A B} (m : M A) (f : A -> M B) (t : nat) :
  fst (bind m f t) = rbind (fst (m t)) (fun a => fst (f a (snd (m t)))).
Proof. unfold bind. destruct (m t) as [[a|x] t1]; reflexivity. Qed.

(** Every date check that has a date and an integer value reads the clock
    once and compares against that reading. *)
Lemma check_date_reads_clock (clock : nat -> datetime)
    (predicate value unit : string) (d : datetime) (n : Z) (t : nat) :
  py_int value = Some n ->
  _check_date_condition clock predicate value unit (Some d) t
  = (check_date_at (clock t) predicate value unit (Some d), S t).
Proof.
  intros Hv. unfold _check_date_condition, check_date_at. rewrite Hv.
  unfold bind, utcnow, ret, raise, rbind.
  destruct (str_eqb unit "days"), (str_eqb unit "months"),
    (str_eqb predicate "less_than"), (str_eqb predicate "greater_than");
    reflexivity.
Qed.

Section StandingClock.

Variable clock : nat -> datetime.
Variable now : datetime.
Hypothesis clock_stands : forall k, clock k = now.

Lemma check_date_standing (predicate value unit : string)
    (d : option datetime) (t : nat) :
  fst (_check_date_condition clock predicate value unit d t)
  = check_date_at now predicate value unit d.
Proof.
  destruct d as [d|]; [|reflexivity].
  destruct (py_int value) as [n|] eqn:Hv.
  - rewrite (check_date_reads_clock _ _ _ _ _ n _ Hv), clock_stands.
    reflexivity.
  - unfold _check_date_condition, check_date_at. rewrite Hv. reflexivity.
Qed.

Lemma check_string_standing (predicate value : string)
    (fv : option string) (t : nat) :
  fst (check_string_condition predicate value fv t)
  = check_string_at predicate value fv.
Proof.
  unfold check_string_condition, check_string_at.
  destruct (str_eqb predicate "contains"),
    (str_eqb predicate "does_not_contain"), (str_eqb predicate "equals"),
    (str_eqb predicate "does_not_equal"), fv; reflexivity.
Qed.

Lemma condition_standing (c : Condition.t) (e : Email.t) (t : nat) :
  fst (_condition_matches clock c e t) = condition_matches_at now c e.
Proof.
  unfold _condition_matches, condition_matches_at.
  repeat match goal with
    | |- context [if ?b then _ else _] => destruct b
    end;
    auto using check_string_standing, check_date_standing.
Qed.

Lemma all_standing (cs : list Condition.t) (e : Email.t) (t : nat) :
  fst (all_conditions clock cs e t) = all_at now cs e.
Proof.
  revert t. induction cs as [|c cs IH]; intros t; [reflexivity|].
  cbn [all_conditions all_at]. rewrite fst_bind, condition_standing.
  destruct (condition_matches_at now c e) as [[|]|x]; cbn; auto.
Qed.

Lemma any_standing (cs : list Condition.t) (e : Email.t) (t : nat) :
  fst (any_conditions clock cs e t) = any_at now cs e.
Proof.
  revert t. induction cs as [|c cs IH]; intros t; [reflexivity|].
  cbn [any_conditions any_at]. rewrite fst_bind, condition_standing.
  destruct (condition_matches_at now c e) as [[|]|x]; cbn; auto.
Qed.

Lemma rule_standing (r : Rule.t) (e : Email.t) (t : nat) :
  fst (_rule_applies clock r e t) = rule_applies_at now r e.
Proof.
  unfold _rule_applies, rule_applies_at.
  destruct (str_eqb (Rule.predicate r) "all"); [apply all_standing|].
  destruct (str_eqb (Rule.predicate r) "any"); [apply any_standing|].
  reflexivity.
Qed.

Lemma check_rules_standing (rules : list Rule.t) (e : Email.t)
    (acc : list applied) (t : nat) :
  fst (check_rules clock rules e acc t)
  = rbind (actions_at now rules e) (fun l => Ok (acc ++ l)).
Proof.
  revert acc t. induction rules as [|r rules IH]; intros acc t;
    cbn [check_rules actions_at].
  - cbn. rewrite app_nil_r. reflexivity.
  - rewrite fst_bind, rule_standing.
    destruct (rule_applies_at now r e) as [b|x]; [|reflexivity].
    cbn [rbind]. rewrite IH.
    destruct (actions_at now rules e) as [l|x]; [|reflexivity].
    cbn [rbind]. destruct b; [rewrite <- app_assoc|]; reflexivity.
Qed.

Lemma process_emails_standing (rules : list Rule.t) (emails : list Email.t)
    (results : action_plan) (t : nat) :
  fst (process_emails clock rules emails results t)
  = plan_at now rules emails results.
Proof.
  revert results t. induction emails as [|e emails IH]; intros results t;
    cbn [process_emails plan_at]; [reflexivity|].
  rewrite fst_bind, check_rules_standing.
  destruct (actions_at now rules e) as [l|x]; [|reflexivity].
  cbn [rbind app]. rewrite IH. destruct l; reflexivity.
Qed.

End StandingClock.




(** ** Unknown values *)

Ltac not_in_list H :=
  repeat (apply not_elem_of_cons in H as [? H]).

Lemma check_string_unknown (predicate value : string)
    (fv : option string) (t : nat) :
  predicate ∉ string_predicates ->
  check_string_condition predicate value fv t
  = (Raise (ValueError ("Unknown predicate: " +:+ predicate)), t).
Proof.
  intros H. unfold string_predicates in H. not_in_list H.
  unfold check_string_condition. str_cases. reflexivity.
Qed.

Lemma refused_raises (clock : nat -> datetime) (e : Email.t)
    (c : Condition.t) (t : nat) :
  refused e c ->
  exists msg t', _condition_matches clock c e t = (Raise (ValueError msg), t').
Proof.
  intros [H|Hf H|Hf [d Hd] [n Hn] H|Hf [d Hd] [n Hn] H];
    unfold _condition_matches.
  - cbn in H. not_in_list H. str_cases. eauto.
  - unfold string_fields in Hf.
    repeat (apply elem_of_cons in Hf as [->|Hf]);
      [..|apply elem_of_nil in Hf; contradiction];
      str_cases; rewrite check_string_unknown by exact H; eauto.
  - rewrite Hf, Hd. str_cases. unfold _check_date_condition. rewrite Hn.
    unfold units in H. not_in_list H. unfold bind, utcnow. str_cases.
    cbn. eauto.
  - rewrite Hf, Hd. str_cases. unfold _check_date_condition. rewrite Hn.
    unfold date_predicates in H. not_in_list H. unfold bind, utcnow.
    destruct (str_eqb (default "days" (Condition.unit c)) "days");
      [|destruct (str_eqb (default "days" (Condition.unit c)) "months")];
      cbn; str_cases; eauto.
Qed.

Lemma check_string_value_error (predicate value msg : string)
    (fv : option string) (t t' : nat) :
  check_string_condition predicate value fv t = (Raise (ValueError msg), t') ->
  predicate ∉ string_predicates.
Proof.
  unfold check_string_condition, string_predicates.
  destruct (str_eqb predicate "contains") eqn:E1;
    [destruct fv; discriminate|].
  destruct (str_eqb predicate "does_not_contain") eqn:E2;
    [destruct fv; discriminate|].
  destruct (str_eqb predicate "equals") eqn:E3;
    [destruct fv; discriminate|].
  destruct (str_eqb predicate "does_not_equal") eqn:E4;
    [destruct fv; discriminate|].
  apply str_eqb_false in E1, E2, E3, E4. intros _ H.
  repeat (apply elem_of_cons in H as [H|H]; [congruence|]).
  apply elem_of_nil in H. exact H.
Qed.

(** A [ValueError] of a condition has no other cause than the ones of
    [refused]. *)
Lemma value_error_refused (clock : nat -> datetime) (e : Email.t)
    (c : Condition.t) (t t' : nat) (msg : string) :
  _condition_matches clock c e t = (Raise (ValueError msg), t') ->
  refused e c.
Proof.
  unfold _condition_matches.
  destruct (str_eqb (py_lower (Condition.field c)) "from") eqn:E1.
  { intros H. apply check_string_value_error in H.
    apply str_eqb_true in E1. apply refused_string_predicate; [|exact H].
    rewrite E1. unfold string_fields. set_solver. }
  destruct (str_eqb (py_lower (Condition.field c)) "to") eqn:E2.
  { intros H. apply check_string_value_error in H.
    apply str_eqb_true in E2. apply refused_string_predicate; [|exact H].
    rewrite E2. unfold string_fields. set_solver. }
  destruct (str_eqb (py_lower (Condition.field c)) "subject") eqn:E3.
  { intros H. apply check_string_value_error in H.
    apply str_eqb_true in E3. apply refused_string_predicate; [|exact H].
    rewrite E3. unfold string_fields. set_solver. }
  destruct (str_eqb (py_lower (Condition.field c)) "message") eqn:E4.
  { intros H. apply check_string_value_error in H.
    apply str_eqb_true in E4. apply refused_string_predicate; [|exact H].
    rewrite E4. unfold string_fields. set_solver. }
  destruct (str_eqb (py_lower (Condition.field c)) "received_date") eqn:E5.
  - apply str_eqb_true in E5. unfold _check_date_condition.
    destruct (Email.received_date e) as [d|] eqn:Hd; [|discriminate].
    destruct (py_int (Condition.value c)) as [n|] eqn:Hn; [|discriminate].
    unfold bind, utcnow.
    destruct (str_eqb (default "days" (Condition.unit c)) "days") eqn:U1;
      [|destruct (str_eqb (default "days" (Condition.unit c)) "months") eqn:U2].
    3:{ intros _. apply str_eqb_false in U1, U2.
        apply refused_unit; [exact E5|eauto|eauto|].
        unfold units. intros H.
        repeat (apply elem_of_cons in H as [H|H]; [congruence|]).
        apply elem_of_nil in H. exact H. }
    all: cbn;
      destruct (str_eqb (py_lower (Condition.predicate c)) "less_than") eqn:P1;
      [discriminate|];
      destruct (str_eqb (py_lower (Condition.predicate c)) "greater_than")
        eqn:P2; [discriminate|];
      intros _; apply str_eqb_false in P1, P2;
      apply refused_date_predicate; [exact E5|eauto|eauto|];
      unfold date_predicates; intros H;
      repeat (apply elem_of_cons in H as [H|H]; [congruence|]);
      apply elem_of_nil in H; exact H.
  - intros _. apply str_eqb_false in E1, E2, E3, E4, E5.
    apply refused_field. cbn. intros H.
    repeat (apply elem_of_cons in H as [H|H]; [congruence|]).
    apply elem_of_nil in H. exact H.
Qed.

Lemma all_conditions_raise (clock : nat -> datetime) (e : Email.t)
    (cs1 cs2 : list Condition.t) (c : Condition.t) (t t1 t2 : nat) (x : exn) :
  all_conditions clock cs1 e t = (Ok true, t1) ->
  _condition_matches clock c e t1 = (Raise x, t2) ->
  all_conditions clock (cs1 ++ c :: cs2) e t = (Raise x, t2).
Proof.
  revert t. induction cs1 as [|c1 cs1 IH]; intros t; cbn [all_conditions app].
  - intros [= <-] Hc. apply (bind_err _ _ _ _ _ Hc).
  - unfold bind. destruct (_condition_matches clock c1 e t) as [[[|]|y] t3];
      try discriminate.
    apply IH.
Qed.

Lemma any_conditions_raise (clock : nat -> datetime) (e : Email.t)
    (cs1 cs2 : list Condition.t) (c : Condition.t) (t t1 t2 : nat) (x : exn) :
  any_conditions clock cs1 e t = (Ok false, t1) ->
  _condition_matches clock c e t1 = (Raise x, t2) ->
  any_conditions clock (cs1 ++ c :: cs2) e t = (Raise x, t2).
Proof.
  revert t. induction cs1 as [|c1 cs1 IH]; intros t; cbn [any_conditions app].
  - intros [= <-] Hc. apply (bind_err _ _ _ _ _ Hc).
  - unfold bind. destruct (_condition_matches clock c1 e t) as [[[|]|y] t3];
      try discriminate.
    apply IH.
Qed.

Lemma rule_refused_raises (clock : nat -> datetime) (e : Email.t) (t : nat)
    (r : Rule.t) :
  rule_refused clock e t r ->
  exists msg t', _rule_applies clock r e t = (Raise (ValueError msg), t').
Proof.
  intros [H|cs1 c cs2 t1 Hp Hcs Hpre Hc|cs1 c cs2 t1 Hp Hcs Hpre Hc];
    unfold _rule_applies.
  - not_in_list H. str_cases. eauto.
  - destruct (refused_raises clock e c t1 Hc) as [msg [t2 Hr]].
    rewrite Hp, Hcs. str_cases. exists msg, t2.
    apply (all_conditions_raise _ _ _ _ _ _ _ _ _ Hpre Hr).
  - destruct (refused_raises clock e c t1 Hc) as [msg [t2 Hr]].
    rewrite Hp, Hcs. str_cases. exists msg, t2.
    apply (any_conditions_raise _ _ _ _ _ _ _ _ _ Hpre Hr).
Qed.

Lemma check_rules_raise (clock : nat -> datetime) (e : Email.t)
    (rs1 rs2 : list Rule.t) (r : Rule.t) (acc0 acc : list applied)
    (t t1 t2 : nat) (x : exn) :
  check_rules clock rs1 e acc0 t = (Ok acc, t1) ->
  _rule_applies clock r e t1 = (Raise x, t2) ->
  check_rules clock (rs1 ++ r :: rs2) e acc0 t = (Raise x, t2).
Proof.
  revert acc0 t. induction rs1 as [|r1 rs1 IH]; intros acc0 t;
    cbn [check_rules app].
  - intros [= _ <-] Hr. apply (bind_err _ _ _ _ _ Hr).
  - unfold bind. destruct (_rule_applies clock r1 e t) as [[b|y] t3];
      [|discriminate].
    apply IH.
Qed.

Lemma process_emails_raise (clock : nat -> datetime) (rules : list Rule.t)
    (es1 es2 : list Email.t) (e : Email.t) (results plan1 : action_plan)
    (t t1 t2 : nat) (x : exn) :
  process_emails clock rules es1 results t = (Ok plan1, t1) ->
  check_rules clock rules e [] t1 = (Raise x, t2) ->
  process_emails clock rules (es1 ++ e :: es2) results t = (Raise x, t2).
Proof.
  revert results t. induction es1 as [|e1 es1 IH]; intros results t;
    cbn [process_emails app].
  - intros [= _ <-] Hr. apply (bind_err _ _ _ _ _ Hr).
  - unfold bind. destruct (check_rules clock rules e1 [] t) as [[l|y] t3];
      [|discriminate].
    apply IH.
Qed.

(** C3, as stated, fails: a rule with an unknown field after a condition
    that decides the rule, and a rule with an unknown date predicate and
    unit on a message without a date, are evaluated without any error; the
    conditions count as not matching. *)
Lemma unknown_values_pass_silently :
  evaluate_emails (fun _ => 0) [guarded_cc_rule] [plain_email] None 0%nat
  = (Ok ∅, 0%nat)
  /\ evaluate_emails (fun _ => 0) [weeks_rule] [plain_email] None 0%nat
     = (Ok ∅, 0%nat).
Proof. split; vm_compute; reflexivity. Qed.

(** C3, amended. An unknown value raises [ValueError] when the evaluation
    comes to it: a combinator other than [all] and [any] when the rule is
    checked on a message; a field outside the five, or a string predicate
    outside the four, when the condition is evaluated, which happens when no
    condition before it decided the rule; the unit and the predicate of a
    date condition when, besides, the message has a date and the value is an
    integer.  When the messages and the rules before that point raised
    nothing, [evaluate_emails] raises this error and returns no plan. *)
Theorem unknown_value_aborts (clock : nat -> datetime)
    (rules : list Rule.t) (table : list Email.t)
    (email_ids : option (list Z)) (t : nat)
    (es1 es2 : list Email.t) (e : Email.t) (plan1 : action_plan) (t1 : nat)
    (rs1 rs2 : list Rule.t) (r : Rule.t) (acc : list applied) (t2 : nat) :
  query_emails table email_ids = es1 ++ e :: es2 ->
  process_emails clock rules es1 ∅ t = (Ok plan1, t1) ->
  rules = rs1 ++ r :: rs2 ->
  check_rules clock rs1 e [] t1 = (Ok acc, t2) ->
  rule_refused clock e t2 r ->
  exists msg t',
    evaluate_emails clock rules table email_ids t
    = (Raise (ValueError msg), t').
Proof.
  intros Hes Hpre Hrs Hacc Hr.
  destruct (rule_refused_raises clock e t2 r Hr) as [msg [t3 Hraise]].
  exists msg, t3. unfold evaluate_emails. rewrite Hes.
  apply (process_emails_raise _ _ _ _ _ _ _ _ _ _ _ Hpre).
  rewrite Hrs. apply (check_rules_raise _ _ _ _ _ _ _ _ _ _ _ Hacc Hraise).
Qed.

Lemma unknown_value_aborts_witness :
  exists msg t',
    evaluate_emails (fun _ => 0) [newsletter_rule; cc_rule] [plain_email] None
      0%nat
    = (Raise (ValueError msg), t').
Proof.
  apply (unknown_value_aborts (fun _ => 0) [newsletter_rule; cc_rule]
           [plain_email] None 0%nat [] [] plain_email ∅ 0%nat
           [newsletter_rule] [] cc_rule
           [mk_applied (Action.mk "mark_as_read" None) "R1"] 0%nat).
  - reflexivity.
  - reflexivity.
  - reflexivity.
  - reflexivity.
  - apply (refused_under_all (fun _ => 0) plain_email 0%nat cc_rule
             [Condition.mk "subject" "equals" "hello" None]
             (Condition.mk "cc" "contains" "boss" None) [] 0%nat).
    + reflexivity.
    + reflexivity.
    + reflexivity.
    + apply refused_field. vm_compute. intros H.
      repeat (apply elem_of_cons in H as [H|H]; [discriminate|]).
      apply elem_of_nil in H. exact H.
Defined.
(** * Further properties of the rule evaluation *)

(** ** Ages *)

Lemma us_per_day_pos : 0 < us_per_day.
Proof. reflexivity. Qed.

Lemma div_lt_iff (a b v : Z) : 0 < b -> (a / b < v <-> a < v * b).
Proof.
  intros Hb. rewrite (Z.mul_comm v b). split.
  - intros H. destruct (Z_lt_le_dec a (b * v)) as [Hlt|Hle]; [exact Hlt|].
    apply (Z.div_le_lower_bound _ _ _ Hb) in Hle. lia.
  - apply (Z.div_lt_upper_bound _ _ _ Hb).
Qed.

Lemma div_gt_iff (a b v : Z) : 0 < b -> (v < a / b <-> (v + 1) * b <= a).
Proof.
  intros Hb. rewrite (Z.mul_comm (v + 1) b). split.
  - intros H. destruct (Z_lt_le_dec a (b * (v + 1))) as [Hlt|Hle];
      [|exact Hle].
    apply (Z.div_lt_upper_bound _ _ _ Hb) in Hlt. lia.
  - intros H. apply (Z.div_le_lower_bound _ _ _ Hb) in H. lia.
Qed.

Lemma days_between_lt (a b v : Z) :
  days_between a b < v <-> a - b < v * us_per_day.
Proof. apply div_lt_iff, us_per_day_pos. Qed.

Lemma days_between_gt (a b v : Z) :
  v < days_between a b <-> (v + 1) * us_per_day <= a - b.
Proof. apply div_gt_iff, us_per_day_pos. Qed.

Lemma months_between_lt (a b v : Z) :
  days_between a b / 30 < v <-> a - b < v * (30 * us_per_day).
Proof.
  rewrite Z.mul_assoc, <- days_between_lt. apply div_lt_iff. lia.
Qed.

Lemma months_between_gt (a b v : Z) :
  v < days_between a b / 30 <-> (v + 1) * (30 * us_per_day) <= a - b.
Proof.
  rewrite div_gt_iff by lia.
  replace ((v + 1) * (30 * us_per_day))
    with (((v + 1) * 30 - 1 + 1) * us_per_day) by lia.
  rewrite <- days_between_gt. lia.
Qed.

(** What a date check returns once the message has a date and the value is
    an integer, for the two units and the two predicates. *)
Lemma check_date_known (clock : nat -> datetime) (value : string) (v : Z)
    (d : datetime) (t : nat) :
  py_int value = Some v ->
  _check_date_condition clock "less_than" value "days" (Some d) t
  = (Ok (days_between (clock t) d <? v)%Z, S t)
  /\ _check_date_condition clock "greater_than" value "days" (Some d) t
     = (Ok (days_between (clock t) d >? v)%Z, S t)
  /\ _check_date_condition clock "less_than" value "months" (Some d) t
     = (Ok (days_between (clock t) d / 30 <? v)%Z, S t)
  /\ _check_date_condition clock "greater_than" value "months" (Some d) t
     = (Ok (days_between (clock t) d / 30 >? v)%Z, S t).
Proof.
  intros Hv. unfold _check_date_condition. rewrite Hv.
  unfold bind, utcnow, ret. str_cases. repeat split.
Qed.

Lemma date_threshold_facts (clock : nat -> datetime) (value : string) (v : Z)
    (d : datetime) (t : nat) :
  py_int value = Some v ->
  (_check_date_condition clock "less_than" value "days" (Some d) t
   = (Ok true, S t) <-> clock t - d < v * us_per_day)
  /\ (_check_date_condition clock "greater_than" value "days" (Some d) t
      = (Ok true, S t) <-> (v + 1) * us_per_day <= clock t - d)
  /\ (_check_date_condition clock "less_than" value "months" (Some d) t
      = (Ok true, S t) <-> clock t - d < v * (30 * us_per_day))
  /\ (_check_date_condition clock "greater_than" value "months" (Some d) t
      = (Ok true, S t) <-> (v + 1) * (30 * us_per_day) <= clock t - d).
Proof.
  intros Hv.
  destruct (check_date_known clock value v d t Hv) as [-> [-> [-> ->]]].
  rewrite <- days_between_lt, <- days_between_gt, <- months_between_lt,
    <- months_between_gt, <- !Z.ltb_lt, <- !Z.gtb_ltb.
  repeat split; intros H; congruence.
Qed.

(** X1. The thresholds of a date condition in elapsed time: [less_than v]
    matches exactly when less than [v] whole units (days of 24 hours,
    months of 30 days) lie between the date and the clock reading, and
    [greater_than v] exactly when at least [v + 1] whole units do. *)
Theorem date_thresholds (clock : nat -> datetime) (value : string) (v : Z)
    (d : datetime) (t : nat) :
  py_int value = Some v ->
  (_check_date_condition clock "less_than" value "days" (Some d) t
   = (Ok true, S t) <-> clock t - d < v * us_per_day)
  /\ (_check_date_condition clock "greater_than" value "days" (Some d) t
      = (Ok true, S t) <-> (v + 1) * us_per_day <= clock t - d)
  /\ (_check_date_condition clock "less_than" value "months" (Some d) t
      = (Ok true, S t) <-> clock t - d < v * (30 * us_per_day))
  /\ (_check_date_condition clock "greater_than" value "months" (Some d) t
      = (Ok true, S t) <-> (v + 1) * (30 * us_per_day) <= clock t - d).
Proof. apply date_threshold_facts. Qed.

Lemma date_thresholds_witness :
  _check_date_condition (fun _ => 8 * us_per_day - 1) "greater_than" "7"
    "days" (Some 0) 0%nat = (Ok true, 1%nat)
  <-> (7 + 1) * us_per_day <= 8 * us_per_day - 1 - 0.
Proof.
  apply (date_thresholds (fun _ => 8 * us_per_day - 1) "7" 7 0 0%nat).
  reflexivity.
Defined.

(** X2. Time only moves a message from [less_than] to [greater_than]: a
    [greater_than] condition that matches at one clock reading matches at
    every later reading, and a [less_than] condition that matches at one
    reading matches at every earlier one. *)
Theorem date_match_monotone (clock1 clock2 : nat -> datetime)
    (value unit : string) (v : Z) (d : datetime) (t1 t2 : nat) :
  py_int value = Some v ->
  unit ∈ units ->
  clock1 t1 <= clock2 t2 ->
  (_check_date_condition clock1 "greater_than" value unit (Some d) t1
   = (Ok true, S t1) ->
   _check_date_condition clock2 "greater_than" value unit (Some d) t2
   = (Ok true, S t2))
  /\ (_check_date_condition clock2 "less_than" value unit (Some d) t2
      = (Ok true, S t2) ->
      _check_date_condition clock1 "less_than" value unit (Some d) t1
      = (Ok true, S t1)).
Proof.
  intros Hv Hu Hle. unfold units in Hu.
  destruct (date_threshold_facts clock1 value v d t1 Hv) as [A1 [A2 [A3 A4]]].
  destruct (date_threshold_facts clock2 value v d t2 Hv) as [B1 [B2 [B3 B4]]].
  apply elem_of_cons in Hu as [->|Hu];
    [|apply elem_of_cons in Hu as [->|Hu];
      [|apply elem_of_nil in Hu; contradiction]].
  - rewrite A1, A2, B1, B2. lia.
  - rewrite A3, A4, B3, B4. lia.
Qed.

Lemma date_match_monotone_witness :
  _check_date_condition (fun _ => day 9) "greater_than" "7" "days" (Some 0)
    5%nat = (Ok true, 6%nat).
Proof.
  apply (date_match_monotone (fun _ => day 8) (fun _ => day 9) "7" "days" 7 0
           0%nat 5%nat).
  - reflexivity.
  - apply list_elem_of_here.
  - vm_compute. discriminate.
  - reflexivity.
Defined.

(** X3. At one clock reading a date condition never matches under both
    [less_than] and [greater_than] with the same value, and it matches
    under neither exactly when the elapsed whole units equal the value. *)
Theorem date_predicates_exclusive (clock : nat -> datetime)
    (value unit : string) (v : Z) (d : datetime) (t : nat) :
  py_int value = Some v ->
  unit ∈ units ->
  let elapsed :=
    if str_eqb unit "days" then days_between (clock t) d
    else days_between (clock t) d / 30 in
  exists b1 b2,
    _check_date_condition clock "less_than" value unit (Some d) t
    = (Ok b1, S t)
    /\ _check_date_condition clock "greater_than" value unit (Some d) t
       = (Ok b2, S t)
    /\ b1 && b2 = false
    /\ (b1 || b2 = false <-> elapsed = v).
Proof.
  intros Hv Hu elapsed. unfold units in Hu.
  destruct (check_date_known clock value v d t Hv) as [A1 [A2 [A3 A4]]].
  apply elem_of_cons in Hu as [->|Hu];
    [|apply elem_of_cons in Hu as [->|Hu];
      [|apply elem_of_nil in Hu; contradiction]];
    subst elapsed; str_cases.
  - rewrite A1, A2. eexists _, _. repeat split; try reflexivity;
      rewrite ?andb_false_iff, ?orb_false_iff, Z.gtb_ltb, !Z.ltb_ge in *;
      lia.
  - rewrite A3, A4. eexists _, _. repeat split; try reflexivity;
      rewrite ?andb_false_iff, ?orb_false_iff, Z.gtb_ltb, !Z.ltb_ge in *;
      lia.
Qed.

Lemma date_predicates_exclusive_witness :
  exists b1 b2,
    _check_date_condition (fun _ => day 7 + 5) "less_than" "7" "days" (Some 0)
      0%nat = (Ok b1, 1%nat)
    /\ _check_date_condition (fun _ => day 7 + 5) "greater_than" "7" "days"
         (Some 0) 0%nat = (Ok b2, 1%nat)
    /\ b1 && b2 = false
    /\ (b1 || b2 = false <-> days_between (day 7 + 5) 0 = 7).
Proof.
  apply (date_predicates_exclusive (fun _ => day 7 + 5) "7" "days" 7 0 0%nat).
  - reflexivity.
  - apply list_elem_of_here.
Defined.

(** X4. A message dated after the clock reading has a negative age: it
    matches [less_than v] for every [v] from 0 on and [greater_than v] for
    no [v] from -1 on, in days and in months. *)
Theorem future_date_is_recent (clock : nat -> datetime)
    (value unit : string) (v : Z) (d : datetime) (t : nat) :
  py_int value = Some v ->
  unit ∈ units ->
  clock t < d ->
  (0 <= v ->
   _check_date_condition clock "less_than" value unit (Some d) t
   = (Ok true, S t))
  /\ (-1 <= v ->
      _check_date_condition clock "greater_than" value unit (Some d) t
      = (Ok false, S t)).
Proof.
  intros Hv Hu Hfut. unfold units in Hu. pose proof us_per_day_pos as Hpos.
  destruct (check_date_known clock value v d t Hv) as [A1 [A2 [A3 A4]]].
  assert (Hd : days_between (clock t) d < 0)
    by (apply days_between_lt; lia).
  assert (Hm : days_between (clock t) d / 30 < 0)
    by (apply Z.div_lt_upper_bound; lia).
  apply elem_of_cons in Hu as [->|Hu];
    [|apply elem_of_cons in Hu as [->|Hu];
      [|apply elem_of_nil in Hu; contradiction]].
  - rewrite A1, A2. split; intros Hle; do 2 f_equal.
    + apply Z.ltb_lt. lia.
    + rewrite Z.gtb_ltb. apply Z.ltb_ge. lia.
  - rewrite A3, A4. split; intros Hle; do 2 f_equal.
    + apply Z.ltb_lt. lia.
    + rewrite Z.gtb_ltb. apply Z.ltb_ge. lia.
Qed.

Lemma future_date_is_recent_witness :
  _check_date_condition (fun _ => day 3) "less_than" "0" "months"
    (Some (day 3 + 1)) 0%nat = (Ok true, 1%nat).
Proof.
  apply (future_date_is_recent (fun _ => day 3) "0" "months" 0 (day 3 + 1)
           0%nat).
  - reflexivity.
  - apply list_elem_of_further, list_elem_of_here.
  - vm_compute. reflexivity.
  - discriminate.
Defined.


(** ** String predicates and names *)

Lemma check_string_negated (value : string) (fv : option string) (t : nat) :
  check_string_condition "does_not_contain" value fv t
  = negated (check_string_condition "contains" value fv t)
  /\ check_string_condition "does_not_equal" value fv t
     = negated (check_string_condition "equals" value fv t).
Proof.
  unfold check_string_condition. str_cases. destruct fv; split; reflexivity.
Qed.

Lemma condition_on_string_field (clock : nat -> datetime) (c : Condition.t)
    (e : Email.t) :
  py_lower (Condition.field c) ∈ string_fields ->
  exists fv,
    _condition_matches clock c e
    = check_string_condition (py_lower (Condition.predicate c))
        (Condition.value c) fv
    /\ forall c', py_lower (Condition.field c') = py_lower (Condition.field c) ->
         _condition_matches clock c' e
         = check_string_condition (py_lower (Condition.predicate c'))
             (Condition.value c') fv.
Proof.
  intros Hf. unfold string_fields in Hf.
  repeat (apply elem_of_cons in Hf as [Hf|Hf]);
    [..|apply elem_of_nil in Hf; contradiction].
  - exists (Email.from_address e). unfold _condition_matches.
    split; [|intros c' ->]; rewrite Hf; str_cases; reflexivity.
  - exists (Email.to_address e). unfold _condition_matches.
    split; [|intros c' ->]; rewrite Hf; str_cases; reflexivity.
  - exists (Email.subject e). unfold _condition_matches.
    split; [|intros c' ->]; rewrite Hf; str_cases; reflexivity.
  - exists (Some (default "" (Email.body_text e))). unfold _condition_matches.
    split; [|intros c' ->]; rewrite Hf; str_cases; reflexivity.
Qed.

(** X5. On the same field and value, [does_not_contain] returns the
    negation of what [contains] returns, and [does_not_equal] the negation
    of what [equals] returns; when one raises (a null column), the other
    raises the same exception. *)
Theorem negative_predicates_negate (clock : nat -> datetime)
    (c1 c2 : Condition.t) (e : Email.t) (t : nat) :
  py_lower (Condition.field c1) ∈ string_fields ->
  py_lower (Condition.field c2) = py_lower (Condition.field c1) ->
  Condition.value c2 = Condition.value c1 ->
  (py_lower (Condition.predicate c1) = "contains"
   /\ py_lower (Condition.predicate c2) = "does_not_contain")
  \/ (py_lower (Condition.predicate c1) = "equals"
      /\ py_lower (Condition.predicate c2) = "does_not_equal") ->
  _condition_matches clock c2 e t = negated (_condition_matches clock c1 e t).
Proof.
  intros Hf Hf2 Hv Hp.
  destruct (condition_on_string_field clock c1 e Hf) as [fv [-> H2]].
  rewrite (H2 c2 Hf2), Hv.
  destruct (check_string_negated (Condition.value c1) fv t) as [Hc He].
  destruct Hp as [[-> ->]|[-> ->]]; assumption.
Qed.

Lemma negative_predicates_negate_witness :
  _condition_matches (fun _ => 0)
    (Condition.mk "subject" "does_not_contain" "hello" None) plain_email 0%nat
  = negated
      (_condition_matches (fun _ => 0)
         (Condition.mk "subject" "contains" "hello" None) plain_email 0%nat).
Proof.
  apply (negative_predicates_negate (fun _ => 0)
           (Condition.mk "subject" "contains" "hello" None)
           (Condition.mk "subject" "does_not_contain" "hello" None)).
  - cbn. apply list_elem_of_further, list_elem_of_further, list_elem_of_here.
  - reflexivity.
  - reflexivity.
  - left. split; reflexivity.
Defined.

(** X6. The field and the predicate of a condition are read without regard
    to case: two conditions whose fields and predicates agree after
    lower-casing, with the same value and unit, evaluate alike.  The
    combinator of a rule is read as it is written: a combinator that is
    [all] or [any] only after lower-casing is refused. *)
Theorem names_ignore_case (clock : nat -> datetime) (c1 c2 : Condition.t)
    (r : Rule.t) (e : Email.t) (t : nat) :
  py_lower (Condition.field c1) = py_lower (Condition.field c2) ->
  py_lower (Condition.predicate c1) = py_lower (Condition.predicate c2) ->
  Condition.value c1 = Condition.value c2 ->
  Condition.unit c1 = Condition.unit c2 ->
  _condition_matches clock c1 e t = _condition_matches clock c2 e t
  /\ (py_lower (Rule.predicate r) ∈ ["all"; "any"] ->
      Rule.predicate r <> py_lower (Rule.predicate r) ->
      _rule_applies clock r e t
      = (Raise (ValueError ("Unknown predicate: " +:+ Rule.predicate r)), t)).
Proof.
  intros Hf Hp Hv Hu. split.
  - unfold _condition_matches. rewrite Hf, Hp, Hv, Hu. reflexivity.
  - intros Hin Hne. unfold _rule_applies.
    assert (Rule.predicate r <> "all" /\ Rule.predicate r <> "any") as [H1 H2].
    { split; intros Heq; rewrite Heq in Hne; apply Hne; reflexivity. }
    str_cases. reflexivity.
Qed.

Lemma names_ignore_case_witness :
  _condition_matches (fun _ => 0)
    (Condition.mk "Subject" "CONTAINS" "hello" None) plain_email 0%nat
  = _condition_matches (fun _ => 0)
      (Condition.mk "subject" "contains" "hello" None) plain_email 0%nat
  /\ (py_lower "All" ∈ ["all"; "any"] ->
      "All" <> py_lower "All" ->
      _rule_applies (fun _ => 0) (Rule.mk "R1" "All" [] []) plain_email 0%nat
      = (Raise (ValueError "Unknown predicate: All"), 0%nat)).
Proof.
  apply (names_ignore_case (fun _ => 0)
           (Condition.mk "Subject" "CONTAINS" "hello" None)
           (Condition.mk "subject" "contains" "hello" None)
           (Rule.mk "R1" "All" [] []) plain_email 0%nat);
    reflexivity.
Defined.

(** ** Short circuit *)

(** X7. The conditions of a rule are evaluated in order up to the one that
    decides the rule: under [all] the first condition that does not match
    makes the rule not apply, under [any] the first that matches makes it
    apply, and what follows that condition is not evaluated: it raises
    nothing and reads no clock. *)
Theorem deciding_condition_ends_rule (clock : nat -> datetime) (r : Rule.t)
    (e : Email.t) (cs1 cs2 : list Condition.t) (c : Condition.t)
    (t t1 t2 : nat) :
  Rule.conditions r = cs1 ++ c :: cs2 ->
  (Rule.predicate r = "all" ->
   all_conditions clock cs1 e t = (Ok true, t1) ->
   _condition_matches clock c e t1 = (Ok false, t2) ->
   _rule_applies clock r e t = (Ok false, t2))
  /\ (Rule.predicate r = "any" ->
      any_conditions clock cs1 e t = (Ok false, t1) ->
      _condition_matches clock c e t1 = (Ok true, t2) ->
      _rule_applies clock r e t = (Ok true, t2)).
Proof.
  intros Hcs. unfold _rule_applies. rewrite Hcs. split; intros -> Hpre Hc;
    str_cases; clear Hcs; revert t Hpre;
    (induction cs1 as [|c1 cs1 IH]; intros t;
     [intros [= <-]; cbn [app all_conditions any_conditions];
      rewrite (bind_ok _ _ _ _ _ Hc); reflexivity|]);
    cbn [app all_conditions any_conditions]; unfold bind;
    destruct (_condition_matches clock c1 e t) as [[[|]|x] t3];
    try discriminate; apply IH.
Qed.

Lemma deciding_condition_ends_rule_witness :
  _rule_applies (fun _ => 0) guarded_cc_rule plain_email 0%nat
  = (Ok false, 0%nat).
Proof.
  apply (deciding_condition_ends_rule (fun _ => 0) guarded_cc_rule plain_email
           [] [Condition.mk "cc" "contains" "boss" None]
           (Condition.mk "subject" "equals" "goodbye" None) 0%nat 0%nat 0%nat);
    reflexivity.
Defined.

(** ** Clock readings *)

Lemma check_string_tick (predicate value : string) (fv : option string)
    (t : nat) :
  snd (check_string_condition predicate value fv t) = t.
Proof.
  unfold check_string_condition.
  destruct (str_eqb predicate "contains"),
    (str_eqb predicate "does_not_contain"), (str_eqb predicate "equals"),
    (str_eqb predicate "does_not_equal"), fv; reflexivity.
Qed.

Lemma check_date_tick (clock : nat -> datetime) (predicate value unit : string)
    (d : option datetime) (t : nat) :
  (t <= snd (_check_date_condition clock predicate value unit d t) <= S t)%nat.
Proof.
  destruct d as [d|]; [|cbn; lia].
  destruct (py_int value) as [n|] eqn:Hv.
  - rewrite (check_date_reads_clock _ _ _ _ _ n _ Hv). cbn. lia.
  - unfold _check_date_condition. rewrite Hv. cbn. lia.
Qed.

Lemma condition_tick (clock : nat -> datetime) (c : Condition.t) (e : Email.t)
    (t : nat) :
  (t <= snd (_condition_matches clock c e t)
   <= t + (if is_date_condition c then 1 else 0))%nat.
Proof.
  unfold _condition_matches, is_date_condition.
  repeat match goal with
    | |- context [if str_eqb ?a ?b then _ else _] =>
        destruct (str_eqb a b) eqn:?
    end;
    rewrite ?check_string_tick; try (cbn; lia).
  pose proof (check_date_tick clock (py_lower (Condition.predicate c))
                (Condition.value c) (default "days" (Condition.unit c))
                (Email.received_date e) t).
  lia.
Qed.

Lemma snd_bind {A B} (m : M A) (f : A -> M B) (t : nat) :
  snd (bind m f t)
  = match fst (m t) with
    | Ok a => snd (f a (snd (m t)))
    | Raise _ => snd (m t)
    end.
Proof. unfold bind. destruct (m t) as [[a|x] t1]; reflexivity. Qed.

Lemma all_conditions_tick (clock : nat -> datetime) (cs : list Condition.t)
    (e : Email.t) (t : nat) :
  (t <= snd (all_conditions clock cs e t) <= t + date_count cs)%nat.
Proof.
  revert t. induction cs as [|c cs IH]; intros t;
    cbn [all_conditions date_count sum_list_with]; [cbn; lia|].
  rewrite snd_bind. pose proof (condition_tick clock c e t) as Hc.
  destruct (fst (_condition_matches clock c e t)) as [[|]|x].
  - specialize (IH (snd (_condition_matches clock c e t))).
    fold (date_count cs). lia.
  - cbn [ret snd]. lia.
  - lia.
Qed.

Lemma any_conditions_tick (clock : nat -> datetime) (cs : list Condition.t)
    (e : Email.t) (t : nat) :
  (t <= snd (any_conditions clock cs e t) <= t + date_count cs)%nat.
Proof.
  revert t. induction cs as [|c cs IH]; intros t;
    cbn [any_conditions date_count sum_list_with]; [cbn; lia|].
  rewrite snd_bind. pose proof (condition_tick clock c e t) as Hc.
  destruct (fst (_condition_matches clock c e t)) as [[|]|x].
  - cbn [ret snd]. lia.
  - specialize (IH (snd (_condition_matches clock c e t))).
    fold (date_count cs). lia.
  - lia.
Qed.

Lemma rule_tick (clock : nat -> datetime) (r : Rule.t) (e : Email.t)
    (t : nat) :
  (t <= snd (_rule_applies clock r e t)
   <= t + date_count (Rule.conditions r))%nat.
Proof.
  unfold _rule_applies.
  destruct (str_eqb (Rule.predicate r) "all"); [apply all_conditions_tick|].
  destruct (str_eqb (Rule.predicate r) "any"); [apply any_conditions_tick|].
  cbn. lia.
Qed.

Lemma check_rules_tick (clock : nat -> datetime) (rules : list Rule.t)
    (e : Email.t) (acc : list applied) (t : nat) :
  (t <= snd (check_rules clock rules e acc t) <= t + date_conditions rules)%nat.
Proof.
  revert acc t. induction rules as [|r rules IH]; intros acc t;
    cbn [check_rules date_conditions sum_list_with]; [cbn; lia|].
  rewrite snd_bind. pose proof (rule_tick clock r e t) as Hr.
  fold (date_conditions rules).
  destruct (fst (_rule_applies clock r e t)) as [b|x]; [|lia].
  specialize (IH (if b then acc ++ rule_actions r else acc)
                (snd (_rule_applies clock r e t))).
  lia.
Qed.

Lemma process_emails_tick (clock : nat -> datetime) (rules : list Rule.t)
    (emails : list Email.t) (results : action_plan) (t : nat) :
  (t <= snd (process_emails clock rules emails results t)
   <= t + List.length emails * date_conditions rules)%nat.
Proof.
  revert results t. induction emails as [|e emails IH]; intros results t;
    cbn [process_emails List.length]; [cbn; lia|].
  rewrite snd_bind. pose proof (check_rules_tick clock rules e [] t) as He.
  destruct (fst (check_rules clock rules e [] t)) as [l|x]; [|lia].
  match goal with
  | |- context [process_emails clock rules emails ?res ?t1] =>
      specialize (IH res t1)
  end.
  lia.
Qed.

(** X8. A call reads the clock at most once for every date condition of
    the rule set and every selected message, and the count of readings
    never goes back, whether the call returns a plan or raises. *)
Theorem clock_readings_bound (clock : nat -> datetime) (rules : list Rule.t)
    (table : list Email.t) (email_ids : option (list Z)) (t : nat) :
  (t <= snd (evaluate_emails clock rules table email_ids t)
   <= t + List.length (query_emails table email_ids) * date_conditions rules)%nat.
Proof. apply process_emails_tick. Qed.

(** ** Rules without date conditions *)

Lemma condition_clock_free (clock1 clock2 : nat -> datetime)
    (c : Condition.t) (e : Email.t) (t : nat) :
  is_date_condition c = false ->
  _condition_matches clock1 c e t = _condition_matches clock2 c e t.
Proof.
  unfold is_date_condition, _condition_matches. intros ->. reflexivity.
Qed.

Lemma date_count_cons (c : Condition.t) (cs : list Condition.t) :
  date_count (c :: cs) = 0%nat ->
  is_date_condition c = false /\ date_count cs = 0%nat.
Proof.
  unfold date_count. cbn [sum_list_with].
  destruct (is_date_condition c); [discriminate|]. auto.
Qed.

Lemma all_conditions_clock_free (clock1 clock2 : nat -> datetime)
    (cs : list Condition.t) (e : Email.t) (t : nat) :
  date_count cs = 0%nat ->
  all_conditions clock1 cs e t = all_conditions clock2 cs e t.
Proof.
  revert t. induction cs as [|c cs IH]; intros t H; [reflexivity|].
  apply date_count_cons in H as [Hc Hcs]. cbn [all_conditions]. unfold bind.
  rewrite (condition_clock_free clock1 clock2 c e t Hc).
  destruct (_condition_matches clock2 c e t) as [[[|]|x] t1]; auto.
Qed.

Lemma any_conditions_clock_free (clock1 clock2 : nat -> datetime)
    (cs : list Condition.t) (e : Email.t) (t : nat) :
  date_count cs = 0%nat ->
  any_conditions clock1 cs e t = any_conditions clock2 cs e t.
Proof.
  revert t. induction cs as [|c cs IH]; intros t H; [reflexivity|].
  apply date_count_cons in H as [Hc Hcs]. cbn [any_conditions]. unfold bind.
  rewrite (condition_clock_free clock1 clock2 c e t Hc).
  destruct (_condition_matches clock2 c e t) as [[[|]|x] t1]; auto.
Qed.

Lemma check_rules_clock_free (clock1 clock2 : nat -> datetime)
    (rules : list Rule.t) (e : Email.t) (acc : list applied) (t : nat) :
  date_conditions rules = 0%nat ->
  check_rules clock1 rules e acc t = check_rules clock2 rules e acc t.
Proof.
  revert acc t. induction rules as [|r rules IH]; intros acc t H;
    [reflexivity|].
  unfold date_conditions in H. cbn [sum_list_with] in H.
  fold (date_conditions rules) in H.
  assert (Hr : date_count (Rule.conditions r) = 0%nat) by lia.
  assert (Hrs : date_conditions rules = 0%nat) by lia.
  cbn [check_rules]. unfold bind.
  assert (Heq : _rule_applies clock1 r e t = _rule_applies clock2 r e t).
  { unfold _rule_applies.
    destruct (str_eqb (Rule.predicate r) "all");
      [apply (all_conditions_clock_free _ _ _ _ _ Hr)|].
    destruct (str_eqb (Rule.predicate r) "any");
      [apply (any_conditions_clock_free _ _ _ _ _ Hr)|].
    reflexivity. }
  rewrite Heq. destruct (_rule_applies clock2 r e t) as [[b|x] t1]; auto.
Qed.

(** X9. A rule set without any condition on [received_date] never reads
    the clock: the call returns the same outcome under every clock and
    leaves the count of readings as it was. *)
Theorem no_date_condition_no_clock (clock1 clock2 : nat -> datetime)
    (rules : list Rule.t) (table : list Email.t)
    (email_ids : option (list Z)) (t : nat) :
  date_conditions rules = 0%nat ->
  evaluate_emails clock1 rules table email_ids t
  = evaluate_emails clock2 rules table email_ids t
  /\ snd (evaluate_emails clock1 rules table email_ids t) = t.
Proof.
  intros H. split.
  - unfold evaluate_emails. generalize (∅ : action_plan) as results.
    revert t. induction (query_emails table email_ids) as [|e es IH];
      intros t results; [reflexivity|].
    cbn [process_emails]. unfold bind.
    rewrite (check_rules_clock_free clock1 clock2 rules e [] t H).
    destruct (check_rules clock2 rules e [] t) as [[l|x] t1]; auto.
  - pose proof (process_emails_tick clock1 rules
                  (query_emails table email_ids) ∅ t) as Hb.
    rewrite H in Hb. unfold evaluate_emails. lia.
Qed.

Lemma no_date_condition_no_clock_witness :
  evaluate_emails standing_clock [newsletter_rule; hello_rule] [plain_email]
    None 0%nat
  = evaluate_emails advancing_clock [newsletter_rule; hello_rule]
      [plain_email] None 0%nat
  /\ snd (evaluate_emails standing_clock [newsletter_rule; hello_rule]
            [plain_email] None 0%nat) = 0%nat.
Proof.
  apply (no_date_condition_no_clock standing_clock advancing_clock
           [newsletter_rule; hello_rule] [plain_email] None 0%nat).
  reflexivity.
Defined.


(** ** Selection and the plan *)

(** X10. Every key of the plan is the identifier of a stored email, and,
    when a non-empty [email_ids] is given, one of its elements. *)
Theorem plan_keys_are_selected (clock : nat -> datetime)
    (rules : list Rule.t) (table : list Email.t)
    (email_ids : option (list Z)) (t t' : nat) (plan : action_plan) (i : Z) :
  evaluate_emails clock rules table email_ids t = (Ok plan, t') ->
  is_Some (plan !! i) ->
  (exists e, e ∈ table /\ Email.id e = i)
  /\ (forall j ids, email_ids = Some (j :: ids) -> i ∈ j :: ids).
Proof.
  unfold evaluate_emails. intros H [l Hl].
  destruct (process_emails_lookup _ _ _ _ _ _ _ i H)
    as [Hi|[e [s [Hin [Hid _]]]]].
  { rewrite lookup_empty in Hi. congruence. }
  apply schedule_emails in Hin. split.
  - exists e. split; [|exact Hid].
    destruct email_ids as [[|j ids]|]; cbn [query_emails] in Hin;
      try exact Hin.
    apply list_elem_of_filter in Hin as [_ Hin]. exact Hin.
  - intros j ids ->. cbn [query_emails] in Hin.
    apply list_elem_of_filter in Hin as [Hin _]. rewrite <- Hid. exact Hin.
Qed.

Lemma plan_keys_are_selected_witness :
  (exists e, e ∈ [plain_email] /\ Email.id e = 1)
  /\ (forall j ids, Some [1; 2] = Some (j :: ids) -> 1 ∈ j :: ids).
Proof.
  apply (plan_keys_are_selected (fun _ => 0) [newsletter_rule; hello_rule]
           [plain_email] (Some [1; 2]) 0%nat 0%nat two_rules_plan 1).
  - vm_compute. reflexivity.
  - vm_compute. eauto.
Defined.

(** X11. Identifiers that no stored email has are ignored without error:
    a non-empty [email_ids] none of whose elements is stored selects
    nothing, and the call returns the empty plan without checking any
    rule. *)
Theorem unknown_ids_select_nothing (clock : nat -> datetime)
    (rules : list Rule.t) (table : list Email.t) (j : Z) (ids : list Z)
    (t : nat) :
  (forall e, e ∈ table -> Email.id e ∉ j :: ids) ->
  query_emails table (Some (j :: ids)) = []
  /\ evaluate_emails clock rules table (Some (j :: ids)) t = (Ok ∅, t).
Proof.
  intros H.
  assert (Hq : query_emails table (Some (j :: ids)) = []).
  { cbn [query_emails]. induction table as [|e table IH]; [reflexivity|].
    rewrite filter_cons_False.
    - apply IH. intros e' He'. apply H. apply elem_of_cons. right. exact He'.
    - apply H. apply list_elem_of_here. }
  split; [exact Hq|]. unfold evaluate_emails. rewrite Hq. reflexivity.
Qed.

Lemma unknown_ids_select_nothing_witness :
  query_emails [plain_email] (Some [7; 8]) = []
  /\ evaluate_emails (fun _ => 0) [cc_rule] [plain_email] (Some [7; 8]) 0%nat
     = (Ok ∅, 0%nat).
Proof.
  apply (unknown_ids_select_nothing (fun _ => 0) [cc_rule] [plain_email] 7 [8]
           0%nat).
  intros e He. apply list_elem_of_singleton in He. subst e.
  vm_compute. intros H.
  repeat (apply elem_of_cons in H as [H|H]; [discriminate|]).
  apply elem_of_nil in H. exact H.
Defined.

Lemma plan_at_filter (now : datetime) (rules : list Rule.t) (P : Z -> Prop)
    `{!forall i, Decision (P i)} (emails : list Email.t)
    (results plan : action_plan) :
  plan_at now rules emails results = Ok plan ->
  plan_at now rules (filter (fun e => P (Email.id e)) emails)
    (filter (fun kv => P kv.1) results)
  = Ok (filter (fun kv => P kv.1) plan).
Proof.
  revert results. induction emails as [|e emails IH]; intros results;
    cbn [plan_at].
  - intros [= ->]. reflexivity.
  - destruct (actions_at now rules e) as [l|x] eqn:Hl; [|discriminate].
    cbn [rbind]. intros Hp. apply IH in Hp.
    destruct (decide (P (Email.id e))) as [HP|HP].
    + rewrite filter_cons_True by exact HP. cbn [plan_at]. rewrite Hl.
      cbn [rbind]. rewrite <- Hp. f_equal.
      case_bool_decide; [reflexivity|].
      rewrite map_filter_insert_True by exact HP. reflexivity.
    + rewrite filter_cons_False by exact HP. rewrite <- Hp. f_equal.
      case_bool_decide; [reflexivity|].
      rewrite map_filter_insert_not; [reflexivity|]. intros y. exact HP.
Qed.

(** X12. Under a clock that shows one instant, selecting messages by
    identifier and evaluating them gives the plan of all the stored
    messages restricted to the selected identifiers, provided the
    evaluation of all the messages raises nothing. *)
Theorem selection_restricts_plan (clock : nat -> datetime) (now : datetime)
    (rules : list Rule.t) (table : list Email.t) (j : Z) (ids : list Z)
    (t t' : nat) (plan : action_plan) :
  (forall k, clock k = now) ->
  evaluate_emails clock rules table None t = (Ok plan, t') ->
  fst (evaluate_emails clock rules table (Some (j :: ids)) t)
  = Ok (filter (fun kv => kv.1 ∈ j :: ids) plan).
Proof.
  intros Hstands Hall. unfold evaluate_emails in *.
  rewrite (process_emails_standing clock now Hstands).
  pose proof (process_emails_standing clock now Hstands rules
                (query_emails table None) ∅ t) as Hat.
  rewrite Hall in Hat. cbn [fst query_emails] in Hat. symmetry in Hat.
  apply (plan_at_filter now rules (fun i => i ∈ j :: ids)) in Hat.
  rewrite map_filter_empty in Hat. exact Hat.
Qed.

Lemma selection_restricts_plan_witness :
  fst (evaluate_emails (fun _ => 0) [newsletter_rule; hello_rule]
         [plain_email] (Some [2; 3]) 0%nat)
  = Ok (filter (fun kv => kv.1 ∈ [2; 3]) two_rules_plan).
Proof.
  apply (selection_restricts_plan (fun _ => 0) 0 [newsletter_rule; hello_rule]
           [plain_email] 2 [3] 0%nat 0%nat two_rules_plan).
  - intros k. reflexivity.
  - exact two_rules_run.
Defined.

(** X13. An exception raised by the check of one rule on one message ends
    the whole call with that exception: no plan is returned, not even for
    the messages evaluated before. *)
Theorem exception_discards_plan (clock : nat -> datetime)
    (rules : list Rule.t) (table : list Email.t)
    (email_ids : option (list Z)) (t : nat)
    (es1 es2 : list Email.t) (e : Email.t) (plan1 : action_plan) (t1 : nat)
    (rs1 rs2 : list Rule.t) (r : Rule.t) (acc : list applied) (t2 t3 : nat)
    (x : exn) :
  query_emails table email_ids = es1 ++ e :: es2 ->
  process_emails clock rules es1 ∅ t = (Ok plan1, t1) ->
  rules = rs1 ++ r :: rs2 ->
  check_rules clock rs1 e [] t1 = (Ok acc, t2) ->
  _rule_applies clock r e t2 = (Raise x, t3) ->
  evaluate_emails clock rules table email_ids t = (Raise x, t3).
Proof.
  intros Hes Hpre Hrs Hacc Hraise. unfold evaluate_emails. rewrite Hes.
  apply (process_emails_raise _ _ _ _ _ _ _ _ _ _ _ Hpre).
  rewrite Hrs. apply (check_rules_raise _ _ _ _ _ _ _ _ _ _ _ Hacc Hraise).
Qed.

Lemma exception_discards_plan_witness :
  evaluate_emails (fun _ => 0) [newsletter_rule; hello_rule]
    [plain_email; email_without_subject] None 0%nat
  = (Raise AttributeError, 0%nat).
Proof.
  apply (exception_discards_plan (fun _ => 0) [newsletter_rule; hello_rule]
           [plain_email; email_without_subject] None 0%nat
           [plain_email] [] email_without_subject two_rules_plan 0%nat
           [newsletter_rule] [] hello_rule [] 0%nat 0%nat AttributeError);
    reflexivity.
Defined.


(** * Executing the plan *)

Section ActionFacts.

Variable world : Type.
Variable get_gmail_service : world -> outcome unit * world.
Variable messages_modify :
  string -> list string -> list string -> world -> outcome unit * world.
Variable labels_list : world -> outcome (list Label.t) * world.
Variable labels_create : string -> world -> outcome Label.t * world.
Variable DRY_RUN : bool.

#[local] Abbreviation mark_as_read' :=
  (mark_as_read world get_gmail_service messages_modify DRY_RUN).
#[local] Abbreviation mark_as_unread' :=
  (mark_as_unread world get_gmail_service messages_modify DRY_RUN).
#[local] Abbreviation move_message' :=
  (move_message world get_gmail_service messages_modify labels_list
     labels_create DRY_RUN).
#[local] Abbreviation run_action' :=
  (run_action world get_gmail_service messages_modify labels_list
     labels_create DRY_RUN).
#[local] Abbreviation run_actions' :=
  (run_actions world get_gmail_service messages_modify labels_list
     labels_create DRY_RUN).
#[local] Abbreviation execute_items' :=
  (execute_items world get_gmail_service messages_modify labels_list
     labels_create DRY_RUN).
#[local] Abbreviation execute_actions' :=
  (execute_actions world get_gmail_service messages_modify labels_list
     labels_create DRY_RUN).

(** *** The shape of the results *)

Lemma dict_set_fresh {V : Type} (k : Z) (v : V) (d : list (Z * V)) :
  k ∉ map fst d -> dict_set k v d = d ++ [(k, v)].
Proof.
  induction d as [|[k' v'] d IH]; cbn [dict_set map fst app]; [reflexivity|].
  intros H. apply not_elem_of_cons in H as [Hne Hd].
  rewrite bool_decide_eq_false_2 by congruence. rewrite IH by exact Hd.
  reflexivity.
Qed.

Lemma dict_append_last {V : Type} (k : Z) (x : V) (d : list (Z * list V))
    (l : list V) :
  k ∉ map fst d -> dict_append k x (d ++ [(k, l)]) = d ++ [(k, l ++ [x])].
Proof.
  induction d as [|[k' v'] d IH]; cbn [dict_append map fst app].
  - intros _. rewrite bool_decide_eq_true_2 by reflexivity. reflexivity.
  - intros H. apply not_elem_of_cons in H as [Hne Hd].
    rewrite bool_decide_eq_false_2 by congruence. rewrite IH by exact Hd.
    reflexivity.
Qed.

Lemma run_actions_results (k : Z) (actions : list applied)
    (d : list (Z * list Result.t)) (l : list Result.t) (s : state world) :
  k ∉ map fst d ->
  exists rs,
    fst (run_actions' k actions (d ++ [(k, l)]) s) = d ++ [(k, l ++ rs)]
    /\ List.length rs = List.length actions.
Proof.
  intros Hk. revert l s. induction actions as [|a actions IH]; intros l s;
    cbn [run_actions].
  - exists []. rewrite app_nil_r. split; reflexivity.
  - destruct (run_action' k a s) as [r s1].
    rewrite (dict_append_last _ _ _ _ Hk).
    destruct (IH (l ++ [r]) s1) as [rs [Hrs Hlen]].
    exists (r :: rs). rewrite Hrs, <- app_assoc. cbn. split; [reflexivity|].
    rewrite Hlen. reflexivity.
Qed.

Lemma execute_items_results (items : list (Z * list applied))
    (d : list (Z * list Result.t)) (s : state world) :
  NoDup (map fst d ++ map fst items) ->
  exists rs,
    fst (execute_items' items d s) = d ++ rs
    /\ map fst rs = map fst items
    /\ Forall2 (fun r item => List.length r.2 = List.length item.2) rs items.
Proof.
  revert d s. induction items as [|[k actions] items IH]; intros d s Hnd;
    cbn [execute_items].
  - exists []. rewrite app_nil_r. repeat split. constructor.
  - cbn [map fst] in Hnd.
    assert (Hk : k ∉ map fst d).
    { apply NoDup_app in Hnd as [_ [Hdis _]]. intros Hin.
      apply (Hdis k Hin). apply list_elem_of_here. }
    rewrite (dict_set_fresh _ _ _ Hk).
    destruct (run_actions_results k actions d [] s Hk) as [rs [Hrs Hlen]].
    destruct (run_actions' k actions (d ++ [(k, [])]) s) as [d1 s1].
    cbn [fst] in Hrs. subst d1. cbn [app] in *.
    destruct (IH (d ++ [(k, rs)]) s1) as [rest [Hrest [Hkeys Hall]]].
    { rewrite map_app. cbn [map fst]. rewrite <- app_assoc. exact Hnd. }
    exists ((k, rs) :: rest). rewrite Hrest, <- app_assoc. cbn.
    repeat split; [rewrite Hkeys; reflexivity|].
    constructor; [exact Hlen|exact Hall].
Qed.

(** X14. [execute_actions] returns, for a plan, a dictionary with the
    keys of the plan in the same order and, under each key, one result per
    action of the message, whatever the Gmail client and the database
    hold. *)
Theorem execute_actions_shape (email_actions : list (Z * list applied))
    (s : state world) :
  NoDup (map fst email_actions) ->
  let results := fst (execute_actions' email_actions s) in
  map fst results = map fst email_actions
  /\ Forall2 (fun r item => List.length r.2 = List.length item.2)
       results email_actions.
Proof.
  intros Hnd results. subst results. unfold execute_actions.
  destruct (execute_items_results email_actions [] s Hnd)
    as [rs [-> [Hkeys Hall]]].
  split; assumption.
Qed.

(** *** What an action leaves alone *)

Lemma same_message_refl (r : Row.t) : same_message r r.
Proof. reflexivity. Qed.















(** *** Actions without effect *)

(** X16. An action of an unknown type, and an action of a known type on a
    message that is not stored, fail without any effect: nothing is sent
    to the mailbox, no message changes and no row is written to the
    log. *)
Theorem action_without_effect (email_id : Z) (a : applied) (s : state world) :
  Action.type (action a) ∉ action_types
  \/ find_email email_id (emails s) = None ->
  snd (run_action' email_id a s) = s
  /\ Result.success (fst (run_action' email_id a s)) = false
  /\ (Action.type (action a) ∉ action_types ->
      Result.message (fst (run_action' email_id a s))
      = "Unknown action type: " +:+ Action.type (action a))
  /\ (Action.type (action a) ∈ action_types ->
      Result.message (fst (run_action' email_id a s))
      = "Email with ID " +:+ py_str_int email_id +:+ " not found").
Proof.
  intros H. unfold run_action.
  destruct (decide (Action.type (action a) ∈ action_types)) as [Hin|Hnot].
  - destruct H as [H|Hnone]; [contradiction|].
    assert (Hres : forall rule_id destination,
               mark_as_read' email_id rule_id s = (email_not_found email_id, s)
               /\ mark_as_unread' email_id rule_id s
                  = (email_not_found email_id, s)
               /\ move_message' email_id destination rule_id s
                  = (email_not_found email_id, s)).
    { intros rule_id destination.
      unfold mark_as_read, mark_as_unread, move_message. rewrite Hnone.
      repeat split. }
    destruct (Hres (rule_id a) (default "" (Action.destination (action a))))
      as [H1 [H2 H3]].
    assert (Hcases : Action.type (action a) = "mark_as_read"
                     \/ Action.type (action a) = "mark_as_unread"
                     \/ Action.type (action a) = "move_message").
    { unfold action_types in Hin.
      repeat (apply elem_of_cons in Hin as [Hin|Hin]; [tauto|]).
      apply elem_of_nil in Hin. contradiction. }
    destruct Hcases as [Ht|[Ht|Ht]]; rewrite Ht in Hin |- *; str_cases;
      rewrite ?H1, ?H2, ?H3; cbn [fst snd];
      (split; [reflexivity|]); (split; [reflexivity|]);
      (split; [intros Hn; exfalso; apply Hn; exact Hin
              |intros _; reflexivity]).
  - pose proof Hnot as Hn. unfold action_types in Hn. not_in_list Hn.
    str_cases. cbn [fst snd]. split; [reflexivity|]. split; [reflexivity|].
    split; [intros _; reflexivity|intros Hin; contradiction].
Qed.

(** *** Dry run *)

Lemma dry_keeps_refl (s : state world) : dry_keeps s s.
Proof.
  repeat split. exists []. rewrite app_nil_r. split; [reflexivity|constructor].
Qed.

Lemma dry_keeps_trans (s s1 s2 : state world) :
  dry_keeps s s1 -> dry_keeps s1 s2 -> dry_keeps s s2.
Proof.
  intros [He1 [Hr1 [new1 [Hl1 Hs1]]]] [He2 [Hr2 [new2 [Hl2 Hs2]]]].
  repeat split; [congruence|congruence|].
  exists (new1 ++ new2). rewrite Hl2, Hl1, <- app_assoc.
  split; [reflexivity|]. apply Forall_app. split; assumption.
Qed.

Lemma run_action_dry (email_id : Z) (a : applied) (s : state world) :
  DRY_RUN = true -> dry_keeps s (snd (run_action' email_id a s)).
Proof.
  intros Hdry. unfold run_action, mark_as_read, mark_as_unread, move_message.
  rewrite Hdry. repeat case_match; cbn [snd]; try apply dry_keeps_refl;
    (repeat split; cbn [action_logs log_action]; eexists;
     split; [reflexivity|repeat constructor]).
Qed.

Lemma run_actions_dry (k : Z) (actions : list applied)
    (d : list (Z * list Result.t)) (s : state world) :
  DRY_RUN = true -> dry_keeps s (snd (run_actions' k actions d s)).
Proof.
  intros Hdry. revert d s. induction actions as [|a actions IH]; intros d s;
    cbn [run_actions]; [apply dry_keeps_refl|].
  pose proof (run_action_dry k a s Hdry) as Hstep.
  destruct (run_action' k a s) as [r s1]. cbn [snd] in Hstep.
  apply (dry_keeps_trans _ _ _ Hstep), IH.
Qed.

(** X17. With [DRY_RUN] set, executing a plan sends nothing to the
    mailbox and changes no stored message; it only adds rows to the
    action log, all of them recorded as successes. *)
Theorem dry_run_changes_nothing (email_actions : list (Z * list applied))
    (s : state world) :
  DRY_RUN = true ->
  dry_keeps s (snd (execute_actions' email_actions s)).
Proof.
  intros Hdry. unfold execute_actions. generalize (@nil (Z * list Result.t)).
  revert s. induction email_actions as [|[k actions] items IH]; intros s d;
    cbn [execute_items]; [apply dry_keeps_refl|].
  pose proof (run_actions_dry k actions (dict_set k [] d) s Hdry) as Hrun.
  destruct (run_actions' k actions (dict_set k [] d) s) as [d1 s1].
  cbn [snd] in Hrun. apply (dry_keeps_trans _ _ _ Hrun), IH.
Qed.

(** *** Failures *)

(** X18. An action that reports a failure has changed no stored message,
    and what it wrote to the log, if anything, is recorded as a
    failure. *)
Theorem failed_action_keeps_messages (email_id : Z) (a : applied)
    (s : state world) :
  Result.success (fst (run_action' email_id a s)) = false ->
  emails (snd (run_action' email_id a s)) = emails s
  /\ exists new,
       action_logs (snd (run_action' email_id a s)) = action_logs s ++ new
       /\ Forall (fun l => Log.success l = false) new.
Proof.
  unfold run_action, mark_as_read, mark_as_unread, move_message.
  repeat case_match; cbn [fst snd Result.success]; try discriminate;
    intros _; (split; [reflexivity|]);
    cbn [action_logs log_action];
    first [ exists []; rewrite app_nil_r; split; [reflexivity|constructor]
          | eexists; split; [reflexivity|repeat constructor] ].
Qed.

(** *** Reading and unreading *)

Lemma find_email_update (email_id : Z) (f : Row.t -> Row.t)
    (rows : list Row.t) (r : Row.t) :
  find_email email_id rows = Some r ->
  Row.id (f r) = Row.id r ->
  find_email email_id (update_email email_id f rows) = Some (f r).
Proof.
  unfold find_email. intros Hfind Hid.
  induction rows as [|r0 rows IH]; cbn [List.find update_email] in *;
    [discriminate|].
  case_bool_decide as Hr0.
  - injection Hfind as <-. cbn [List.find].
    rewrite bool_decide_eq_true_2 by congruence. reflexivity.
  - cbn [List.find]. rewrite bool_decide_eq_false_2 by exact Hr0.
    apply IH, Hfind.
Qed.



(** X19. Without [DRY_RUN], once [mark_as_read] has succeeded on a
    message, the message is stored as read, and marking it as read again
    succeeds without any call of the mailbox and without changing the
    stored messages. *)
Theorem mark_as_read_twice (email_id : Z) (rule_id rule_id' : string)
    (s : state world) :
  DRY_RUN = false ->
  Result.success (fst (mark_as_read' email_id rule_id s)) = true ->
  let s1 := snd (mark_as_read' email_id rule_id s) in
  (exists email, find_email email_id (emails s1) = Some email
                 /\ Row.is_read email = true)
  /\ Result.message (fst (mark_as_read' email_id rule_id' s1))
     = "Email is already marked as read"
  /\ emails (snd (mark_as_read' email_id rule_id' s1)) = emails s1
  /\ remote (snd (mark_as_read' email_id rule_id' s1)) = remote s1.
Proof.
  intros Hdry Hok s1.
  assert (Hread : exists email, find_email email_id (emails s1) = Some email
                                /\ Row.is_read email = true).
  { subst s1. revert Hok. unfold mark_as_read. rewrite Hdry.
    destruct (find_email email_id (emails s)) as [email|] eqn:Hfind;
      [|discriminate].
    destruct (Row.is_read email) eqn:Hr.
    - intros _. exists email. cbn. auto.
    - destruct (get_gmail_service (remote s)) as [[u|msg] w]; [|discriminate].
      destruct (messages_modify (Row.message_id email) [] ["UNREAD"] w)
        as [[u'|msg] w']; [|discriminate].
      intros _. exists (Row.set_is_read true email). cbn [snd emails log_action].
      split; [|reflexivity].
      apply (find_email_update _ _ _ _ Hfind). reflexivity. }
  split; [exact Hread|]. destruct Hread as [email [Hfind Hr]].
  unfold mark_as_read. rewrite Hfind, Hdry, Hr. repeat split.
Qed.


End ActionFacts.

Lemma execute_actions_shape_witness :
  map fst
    (fst (execute_actions nat counting_service counting_modify counting_labels
            counting_create false sample_plan sample_state))
  = map fst sample_plan
  /\ Forall2 (fun r item => List.length r.2 = List.length item.2)
       (fst (execute_actions nat counting_service counting_modify
               counting_labels counting_create false sample_plan sample_state))
       sample_plan.
Proof.
  apply (execute_actions_shape nat counting_service counting_modify
           counting_labels counting_create false sample_plan sample_state).
  vm_compute. repeat constructor; intros H;
    repeat (apply elem_of_cons in H as [H|H]; [discriminate|]);
    apply elem_of_nil in H; exact H.
Defined.


Lemma action_without_effect_witness :
  snd (run_action nat counting_service counting_modify counting_labels
         counting_create false 5
         (mk_applied (Action.mk "mark_as_read" None) "R3") sample_state)
  = sample_state
  /\ Result.success
       (fst (run_action nat counting_service counting_modify counting_labels
               counting_create false 5
               (mk_applied (Action.mk "mark_as_read" None) "R3") sample_state))
     = false.
Proof.
  destruct (action_without_effect nat counting_service counting_modify
              counting_labels counting_create false 5
              (mk_applied (Action.mk "mark_as_read" None) "R3") sample_state)
    as [H1 [H2 _]].
  - right. reflexivity.
  - split; assumption.
Defined.

Lemma dry_run_changes_nothing_witness :
  dry_keeps sample_state
    (snd (execute_actions nat counting_service counting_modify counting_labels
            counting_create true sample_plan sample_state)).
Proof.
  apply (dry_run_changes_nothing nat counting_service counting_modify
           counting_labels counting_create true sample_plan sample_state).
  reflexivity.
Defined.

Lemma failed_action_keeps_messages_witness :
  emails
    (snd (run_action nat counting_service failing_modify counting_labels
            counting_create false 1
            (mk_applied (Action.mk "move_message" (Some "work")) "R2")
            sample_state))
  = emails sample_state
  /\ exists new,
       action_logs
         (snd (run_action nat counting_service failing_modify counting_labels
                 counting_create false 1
                 (mk_applied (Action.mk "move_message" (Some "work")) "R2")
                 sample_state))
       = action_logs sample_state ++ new
       /\ Forall (fun l => Log.success l = false) new.
Proof.
  apply (failed_action_keeps_messages nat counting_service failing_modify
           counting_labels counting_create false 1
           (mk_applied (Action.mk "move_message" (Some "work")) "R2")
           sample_state).
  reflexivity.
Defined.

Lemma mark_as_read_twice_witness :
  Result.message
    (fst (mark_as_read nat counting_service counting_modify false 1 "R9"
            (snd (mark_as_read nat counting_service counting_modify false 1
                    "R1" sample_state))))
  = "Email is already marked as read"
  /\ remote
       (snd (mark_as_read nat counting_service counting_modify false 1 "R9"
               (snd (mark_as_read nat counting_service counting_modify false 1
                       "R1" sample_state))))
     = remote
         (snd (mark_as_read nat counting_service counting_modify false 1 "R1"
                 sample_state)).
Proof.
  destruct (mark_as_read_twice nat counting_service counting_modify false 1
              "R1" "R9" sample_state)
    as [_ [H1 [_ H2]]].
  - reflexivity.
  - reflexivity.
  - split; assumption.
Defined.


(** ** Labels *)

Lemma comma_free_cons (c : ascii) (x : string) :
  comma_free (String c x) <-> c <> ","%char /\ comma_free x.
Proof.
  unfold comma_free. cbn [py_in String.prefix].
  destruct (Ascii.ascii_dec "," c) as [<-|Hne].
  - destruct x; cbn; split; try discriminate; intros [H _]; congruence.
  - cbn [orb]. split; [intros H; split; [congruence|exact H]|tauto].
Qed.

Lemma comma_free_empty : comma_free "".
Proof. reflexivity. Qed.

Lemma py_split_not_nil (sep : ascii) (s : string) : py_split sep s <> [].
Proof.
  destruct s as [|c s]; cbn [py_split]; [discriminate|].
  destruct (Ascii.eqb c sep); [discriminate|].
  destruct (py_split sep s); discriminate.
Qed.

Lemma py_split_comma_free (x : string) :
  comma_free x -> py_split "," x = [x].
Proof.
  induction x as [|c x IH]; [reflexivity|].
  intros H. apply comma_free_cons in H as [Hc Hx]. cbn [py_split].
  destruct (Ascii.eqb_spec c ","%char) as [->|_]; [contradiction|].
  rewrite (IH Hx). reflexivity.
Qed.

Lemma py_split_app (x rest : string) :
  comma_free x ->
  py_split "," (x +:+ String "," rest) = x :: py_split "," rest.
Proof.
  induction x as [|c x IH]; [reflexivity|].
  intros H. apply comma_free_cons in H as [Hc Hx].
  change (String c x +:+ String "," rest)
    with (String c (x +:+ String "," rest)).
  cbn [py_split].
  destruct (Ascii.eqb_spec c ","%char) as [->|_]; [contradiction|].
  rewrite (IH Hx). reflexivity.
Qed.

Lemma py_split_join (l : list string) :
  l <> [] -> Forall comma_free l -> py_split "," (py_join "," l) = l.
Proof.
  induction l as [|x l IH]; [congruence|]. intros _ Hall.
  apply Forall_cons in Hall as [Hx Hl]. destruct l as [|y l].
  - cbn [py_join]. apply (py_split_comma_free _ Hx).
  - change (py_join "," (x :: y :: l))
      with (x +:+ String "," (py_join "," (y :: l))).
    rewrite (py_split_app _ _ Hx), IH by (discriminate || exact Hl).
    reflexivity.
Qed.

Lemma py_split_elements (s : string) : Forall comma_free (py_split "," s).
Proof.
  induction s as [|c s IH]; cbn [py_split].
  - constructor; [reflexivity|constructor].
  - destruct (Ascii.eqb_spec c ","%char) as [->|Hc].
    + constructor; [reflexivity|exact IH].
    + destruct (py_split "," s) as [|x xs].
      * constructor; [|constructor]. apply comma_free_cons. split;
          [exact Hc|reflexivity].
      * apply Forall_cons in IH as [Hx Hxs]. constructor; [|exact Hxs].
        apply comma_free_cons. split; assumption.
Qed.

Lemma label_list_elements (labels : option string) :
  Forall comma_free (label_list labels).
Proof.
  destruct labels as [[|c s]|]; cbn [label_list]; try constructor.
  apply py_split_elements.
Qed.

Lemma py_join_empty (l : list string) :
  py_join "," l = "" -> l = [] \/ l = [""].
Proof.
  destruct l as [|x [|y l]]; cbn [py_join]; [auto|intros ->; auto|].
  destruct x; discriminate.
Qed.

Lemma label_list_join (l : list string) :
  Forall comma_free l -> l <> [""] -> label_list (Some (py_join "," l)) = l.
Proof.
  intros Hall Hne. destruct l as [|x l]; [reflexivity|].
  destruct (py_join "," (x :: l)) as [|c s] eqn:Hj.
  - apply py_join_empty in Hj as [Hj|Hj]; [discriminate|contradiction].
  - cbn [label_list]. rewrite <- Hj.
    apply py_split_join; [discriminate|exact Hall].
Qed.

(** X21. The labels of a message are stored as one text, joined with
    commas, and read back by splitting at the commas: a list of labels
    without commas is read back as it was stored, unless it is the one
    empty label, which is read back as no label. *)
Theorem labels_round_trip (l : list string) :
  Forall comma_free l ->
  (l <> [""] -> label_list (Some (py_join "," l)) = l)
  /\ label_list (Some (py_join "," [""])) = [].
Proof.
  intros Hall. split; [apply (label_list_join l Hall)|reflexivity].
Qed.

Lemma labels_round_trip_witness :
  label_list (Some (py_join "," ["INBOX"; "UNREAD"; "Label_1"]))
  = ["INBOX"; "UNREAD"; "Label_1"].
Proof.
  apply (labels_round_trip ["INBOX"; "UNREAD"; "Label_1"]).
  - repeat constructor.
  - discriminate.
Defined.

Lemma list_mem_spec (x : string) (l : list string) :
  list_mem x l = true <-> x ∈ l.
Proof.
  unfold list_mem. induction l as [|y l IH]; cbn [existsb].
  - split; [discriminate|]. intros H. apply elem_of_nil in H. contradiction.
  - rewrite orb_true_iff, IH, str_eqb_true, elem_of_cons. reflexivity.
Qed.

Lemma list_remove_subset (x y : string) (l : list string) :
  x ∈ list_remove y l -> x ∈ l.
Proof.
  induction l as [|z l IH]; cbn [list_remove]; [auto|].
  destruct (str_eqb z y).
  - intros H. apply elem_of_cons. right. exact H.
  - intros H. apply elem_of_cons in H as [->|H]; apply elem_of_cons; auto.
Qed.

Lemma list_remove_keeps (x y : string) (l : list string) :
  x ∈ l -> x <> y -> x ∈ list_remove y l.
Proof.
  intros Hin Hne. induction l as [|z l IH]; cbn [list_remove];
    [exact Hin|].
  apply elem_of_cons in Hin as [->|Hin].
  - rewrite (str_eqb_ne _ _ Hne). apply list_elem_of_here.
  - destruct (str_eqb z y); [exact Hin|].
    apply elem_of_cons. right. apply IH, Hin.
Qed.

Lemma list_remove_gone (y : string) (l : list string) :
  NoDup l -> y ∉ list_remove y l.
Proof.
  induction l as [|z l IH]; cbn [list_remove]; intros Hnd.
  - apply not_elem_of_nil.
  - apply NoDup_cons in Hnd as [Hz Hnd].
    destruct (str_eqb z y) eqn:E.
    + apply str_eqb_true in E. subst z. exact Hz.
    + apply str_eqb_false in E. apply not_elem_of_cons. split;
        [congruence|apply IH, Hnd].
Qed.

(** The list of labels that [move_message] joins. *)
Lemma moved_labels_list (label_id : string) (labels : option string) :
  label_id <> "" -> comma_free label_id ->
  exists l,
    moved_labels label_id labels = py_join "," l
    /\ label_list (Some (py_join "," l)) = l
    /\ label_id ∈ l
    /\ (forall x, x ∈ l -> x = label_id \/ x ∈ label_list labels)
    /\ (forall x, x ∈ label_list labels -> x <> "INBOX" -> x ∈ l)
    /\ (NoDup (label_list labels) -> label_id <> "INBOX" -> "INBOX" ∉ l).
Proof.
  intros Hne Hcf. unfold moved_labels.
  set (old := label_list labels).
  set (base := if list_mem "INBOX" old then list_remove "INBOX" old else old).
  set (l := if negb (list_mem label_id base) then base ++ [label_id] else base).
  assert (Hbase_sub : forall x, x ∈ base -> x ∈ old).
  { intros x. subst base. destruct (list_mem "INBOX" old); [|auto].
    apply list_remove_subset. }
  assert (Hbase_keep : forall x, x ∈ old -> x <> "INBOX" -> x ∈ base).
  { intros x Hx Hxi. subst base. destruct (list_mem "INBOX" old); [|auto].
    apply list_remove_keeps; assumption. }
  assert (Hbase_gone : NoDup old -> "INBOX" ∉ base).
  { intros Hnd. subst base. destruct (list_mem "INBOX" old) eqn:E.
    - apply list_remove_gone, Hnd.
    - intros Hin. apply list_mem_spec in Hin. congruence. }
  assert (Hin : label_id ∈ l).
  { subst l. destruct (list_mem label_id base) eqn:E; cbn [negb].
    - apply list_mem_spec, E.
    - apply elem_of_app. right. apply list_elem_of_here. }
  assert (Hl_sub : forall x, x ∈ l -> x = label_id \/ x ∈ base).
  { intros x. subst l. destruct (list_mem label_id base); cbn [negb]; [auto|].
    intros H. apply elem_of_app in H as [H|H]; [auto|].
    apply list_elem_of_singleton in H. auto. }
  assert (Hl_sup : forall x, x ∈ base -> x ∈ l).
  { intros x Hx. subst l. destruct (list_mem label_id base); cbn [negb];
      [exact Hx|]. apply elem_of_app. left. exact Hx. }
  exists l. split; [reflexivity|]. split; [|split; [exact Hin|split; [|split]]].
  - apply label_list_join.
    + apply Forall_forall. intros x Hx.
      destruct (Hl_sub x Hx) as [->|Hb]; [exact Hcf|].
      pose proof (label_list_elements labels) as Hall.
      rewrite Forall_forall in Hall. apply Hall, Hbase_sub, Hb.
    + intros Heq. rewrite Heq in Hin. apply list_elem_of_singleton in Hin.
      contradiction.
  - intros x Hx. destruct (Hl_sub x Hx) as [->|Hb]; auto.
  - intros x Hx Hxi. apply Hl_sup, Hbase_keep; assumption.
  - intros Hnd Hid Hin'. destruct (Hl_sub _ Hin') as [Heq|Hb]; [congruence|].
    apply (Hbase_gone Hnd Hb).
Qed.

(** X22. The labels that [move_message] writes to the row, read back as
    the labels of the message, hold the destination label, every former
    label but [INBOX], and nothing else; with distinct former labels,
    [INBOX] is gone. *)
Theorem moved_labels_read_back (label_id : string) (labels : option string) :
  label_id <> "" -> comma_free label_id ->
  let new := label_list (Some (moved_labels label_id labels)) in
  label_id ∈ new
  /\ (forall x, x ∈ new -> x = label_id \/ x ∈ label_list labels)
  /\ (forall x, x ∈ label_list labels -> x <> "INBOX" -> x ∈ new)
  /\ (NoDup (label_list labels) -> label_id <> "INBOX" -> "INBOX" ∉ new).
Proof.
  intros Hne Hcf new. subst new.
  destruct (moved_labels_list label_id labels Hne Hcf)
    as [l [-> [-> [H1 [H2 [H3 H4]]]]]].
  auto.
Qed.

Lemma moved_labels_read_back_witness :
  "Label_1" ∈ label_list (Some (moved_labels "Label_1" (Some "INBOX,UNREAD"))).
Proof.
  destruct (moved_labels_read_back "Label_1" (Some "INBOX,UNREAD"))
    as [Hin _].
  - discriminate.
  - reflexivity.
  - exact Hin.
Defined.

(** ** Moving a message *)

Lemma find_label_first (destination : string) (pre post : list Label.t)
    (label : Label.t) :
  Forall (fun l => py_lower (Label.name l) <> py_lower destination) pre ->
  py_lower (Label.name label) = py_lower destination ->
  find_label destination (pre ++ label :: post) = Some (Label.id label).
Proof.
  intros Hpre Hlabel. induction Hpre as [|l pre Hl Hpre IH];
    cbn [app find_label].
  - rewrite (str_eqb_eq _ _ Hlabel). reflexivity.
  - rewrite (str_eqb_ne _ _ Hl). exact IH.
Qed.

Lemma find_label_none (destination : string) (labels : list Label.t) :
  Forall (fun l => py_lower (Label.name l) <> py_lower destination) labels ->
  find_label destination labels = None.
Proof.
  intros H. induction H as [|l labels Hl H IH]; cbn [find_label];
    [reflexivity|].
  rewrite (str_eqb_ne _ _ Hl). exact IH.
Qed.

Lemma no_label_some (label_id : string) :
  label_id <> "" -> no_label (Some label_id) = false.
Proof. destruct label_id; [congruence|reflexivity]. Qed.

(** X23. Without [DRY_RUN], when the mailbox has a label whose name is
    the destination up to case, [move_message] uses the first such label
    and creates none: it adds that label to the message and removes
    [INBOX] in the mailbox, writes the new labels to the row, logs the move
    and reports success. *)
Theorem move_reuses_label (world : Type)
    (get_gmail_service : world -> outcome unit * world)
    (messages_modify :
       string -> list string -> list string -> world -> outcome unit * world)
    (labels_list : world -> outcome (list Label.t) * world)
    (labels_create : string -> world -> outcome Label.t * world)
    (email_id : Z) (destination rule_id : string) (s : state world)
    (email : Row.t) (pre post : list Label.t) (label : Label.t)
    (w0 w1 w2 : world) (u u' : unit) :
  find_email email_id (emails s) = Some email ->
  get_gmail_service (remote s) = (Done u, w0) ->
  labels_list w0 = (Done (pre ++ label :: post), w1) ->
  Forall (fun l => py_lower (Label.name l) <> py_lower destination) pre ->
  py_lower (Label.name label) = py_lower destination ->
  Label.id label <> "" ->
  messages_modify (Row.message_id email) [Label.id label] ["INBOX"] w1
  = (Done u', w2) ->
  move_message world get_gmail_service messages_modify labels_list
    labels_create false email_id destination rule_id s
  = (Result.mk true ("Moved email to '" +:+ destination +:+ "'"),
     mk_state
       (update_email email_id
          (fun r =>
             Row.set_labels
               (Some (moved_labels (Label.id label) (Row.labels r))) r)
          (emails s))
       (action_logs s
        ++ [Log.mk email_id "move_message" rule_id
              ("Moved email '" +:+ py_str_opt (Row.subject email) +:+ "' to '"
               +:+ destination +:+ "'")
              true None])
       w2).
Proof.
  intros Hfind Hget Hlist Hpre Hlabel Hid Hmod. unfold move_message.
  rewrite Hfind, Hget, Hlist, (find_label_first _ _ _ _ Hpre Hlabel),
    (no_label_some _ Hid).
  change (default "" (Some (Label.id label))) with (Label.id label).
  rewrite Hmod. reflexivity.
Qed.

Lemma move_reuses_label_witness :
  move_message nat counting_service counting_modify counting_labels
    counting_create false 1 "WORK" "R2" sample_state
  = (Result.mk true "Moved email to 'WORK'",
     mk_state
       [Row.set_labels (Some "UNREAD,Label_1") unread_row]
       [Log.mk 1 "move_message" "R2" "Moved email 'Hello' to 'WORK'" true None]
       3%nat).
Proof.
  apply (move_reuses_label nat counting_service counting_modify counting_labels
           counting_create 1 "WORK" "R2" sample_state unread_row []
           [] (Label.mk "Work" "Label_1") 1%nat 2%nat 3%nat tt tt).
  - reflexivity.
  - reflexivity.
  - reflexivity.
  - constructor.
  - reflexivity.
  - discriminate.
  - reflexivity.
Defined.

(** X24. Without [DRY_RUN], when no label of the mailbox has the
    destination as its name up to case, [move_message] creates a label
    named as the destination is written and moves the message to it. *)
Theorem move_creates_label (world : Type)
    (get_gmail_service : world -> outcome unit * world)
    (messages_modify :
       string -> list string -> list string -> world -> outcome unit * world)
    (labels_list : world -> outcome (list Label.t) * world)
    (labels_create : string -> world -> outcome Label.t * world)
    (email_id : Z) (destination rule_id : string) (s : state world)
    (email : Row.t) (labels : list Label.t) (label : Label.t)
    (w0 w1 w2 w3 : world) (u u' : unit) :
  find_email email_id (emails s) = Some email ->
  get_gmail_service (remote s) = (Done u, w0) ->
  labels_list w0 = (Done labels, w1) ->
  Forall (fun l => py_lower (Label.name l) <> py_lower destination) labels ->
  labels_create destination w1 = (Done label, w2) ->
  messages_modify (Row.message_id email) [Label.id label] ["INBOX"] w2
  = (Done u', w3) ->
  move_message world get_gmail_service messages_modify labels_list
    labels_create false email_id destination rule_id s
  = (Result.mk true ("Moved email to '" +:+ destination +:+ "'"),
     mk_state
       (update_email email_id
          (fun r =>
             Row.set_labels
               (Some (moved_labels (Label.id label) (Row.labels r))) r)
          (emails s))
       (action_logs s
        ++ [Log.mk email_id "move_message" rule_id
              ("Moved email '" +:+ py_str_opt (Row.subject email) +:+ "' to '"
               +:+ destination +:+ "'")
              true None])
       w3).
Proof.
  intros Hfind Hget Hlist Hnone Hcreate Hmod. unfold move_message.
  rewrite Hfind, Hget, Hlist, (find_label_none _ _ Hnone).
  cbn [no_label]. rewrite Hcreate, Hmod. reflexivity.
Qed.

Lemma move_creates_label_witness :
  move_message nat counting_service counting_modify counting_labels
    counting_create false 1 "Receipts" "R2" sample_state
  = (Result.mk true "Moved email to 'Receipts'",
     mk_state
       [Row.set_labels (Some "UNREAD,Label_2") unread_row]
       [Log.mk 1 "move_message" "R2" "Moved email 'Hello' to 'Receipts'" true
          None]
       4%nat).
Proof.
  apply (move_creates_label nat counting_service counting_modify
           counting_labels counting_create 1 "Receipts" "R2" sample_state
           unread_row [Label.mk "Work" "Label_1"] (Label.mk "Receipts" "Label_2")
           1%nat 2%nat 3%nat 4%nat tt tt).
  - reflexivity.
  - reflexivity.
  - reflexivity.
  - repeat constructor. discriminate.
  - reflexivity.
  - reflexivity.
Defined.

(** * Fetching and storing *)

(** ** Parsing a message *)

Lemma sdict_get_set (k k' v : string) (d : list (string * string)) :
  sdict_get k' (sdict_set k v d)
  = if str_eqb k k' then Some v else sdict_get k' d.
Proof.
  induction d as [|[k0 v0] d IH]; cbn [sdict_set sdict_get].
  - destruct (str_eqb k k'); reflexivity.
  - destruct (str_eqb k0 k) eqn:E0; cbn [sdict_get].
    + apply str_eqb_true in E0. subst k0.
      destruct (str_eqb k k'); reflexivity.
    + rewrite IH. destruct (str_eqb k0 k') eqn:E1; [|reflexivity].
      apply str_eqb_true in E1. subst k'. rewrite str_eqb_ne; [reflexivity|].
      apply str_eqb_false in E0. congruence.
Qed.

Lemma headers_dict_get (k : string) (headers : list Header.t) :
  sdict_get k (headers_dict headers) = last_header k headers.
Proof.
  unfold headers_dict.
  assert (H : forall d,
             sdict_get k
               (foldl (fun d h => sdict_set (Header.name h) (Header.value h) d)
                  d headers)
             = match last_header k headers with
               | Some v => Some v
               | None => sdict_get k d
               end).
  { induction headers as [|h headers IH]; intros d; cbn [foldl last_header];
      [reflexivity|].
    rewrite IH, sdict_get_set.
    destruct (last_header k headers); [reflexivity|].
    destruct (str_eqb (Header.name h) k); reflexivity. }
  rewrite H. destruct (last_header k headers); reflexivity.
Qed.

Section FetchFacts.

Variable clock : nat -> datetime.
Variable parsedate_to_datetime : string -> option datetime.
Variable decode_body : string -> result string.

#[local] Abbreviation parse_email' :=
  (parse_email clock parsedate_to_datetime decode_body).

(** What [parse_email] returns, when it returns: every key but the two
    bodies and the date follows from the message alone. *)
Lemma parse_email_fields (msg : Message.t) (t t' : nat) (data : EmailData.t) :
  parse_email' msg t = (Ok data, t') ->
  let headers := Payload.headers (Message.payload msg) in
  let label_ids := default [] (Message.labelIds msg) in
  EmailData.message_id data = Message.id msg
  /\ EmailData.thread_id data = Message.threadId msg
  /\ EmailData.from_address data = default "" (last_header "From" headers)
  /\ EmailData.to_address data = default "" (last_header "To" headers)
  /\ EmailData.subject data
     = default "(No Subject)" (last_header "Subject" headers)
  /\ EmailData.snippet data = default "" (Message.snippet msg)
  /\ EmailData.is_read data = negb (list_mem "UNREAD" label_ids)
  /\ EmailData.labels data = py_join "," label_ids.
Proof.
  unfold parse_email. rewrite !headers_dict_get. unfold bind.
  match goal with
  | |- context [match ?m t with _ => _ end] => destruct (m t) as [[d|x] t1]
  end; [|discriminate].
  match goal with
  | |- context [match ?m t1 with _ => _ end] => destruct (m t1) as [[b|x] t2]
  end; [|discriminate].
  intros [= <- _]. cbn. repeat split.
Qed.

(** X26. The message that [parse_email] returns is read exactly when the
    label [UNREAD] is not among the labels of the message, and its labels,
    read back from the stored text, are the labels of the message, when
    these have no comma and are not the one empty label. *)
Theorem parsed_labels (msg : Message.t) (t t' : nat) (data : EmailData.t) :
  parse_email' msg t = (Ok data, t') ->
  let label_ids := default [] (Message.labelIds msg) in
  (EmailData.is_read data = true <-> "UNREAD" ∉ label_ids)
  /\ (Forall comma_free label_ids -> label_ids <> [""] ->
      label_list (Some (EmailData.labels data)) = label_ids).
Proof.
  intros Hparse label_ids.
  destruct (parse_email_fields msg t t' data Hparse)
    as [_ [_ [_ [_ [_ [_ [Hread Hlabels]]]]]]].
  fold label_ids in Hread, Hlabels. split.
  - rewrite Hread, negb_true_iff, <- not_true_iff_false, list_mem_spec.
    reflexivity.
  - intros Hall Hne. rewrite Hlabels.
    apply (label_list_join label_ids Hall Hne).
Qed.

(** X27. The sender, the recipient and the subject of a parsed message
    are the values of the last header named exactly [From], [To] and
    [Subject]; without such a header they are the empty text, the empty
    text and [(No Subject)], never null. *)
Theorem parsed_headers (msg : Message.t) (t t' : nat) (data : EmailData.t) :
  parse_email' msg t = (Ok data, t') ->
  let headers := Payload.headers (Message.payload msg) in
  EmailData.from_address data = default "" (last_header "From" headers)
  /\ EmailData.to_address data = default "" (last_header "To" headers)
  /\ EmailData.subject data
     = default "(No Subject)" (last_header "Subject" headers)
  /\ (forall k pre post v,
        headers = pre ++ Header.mk k v :: post ->
        Forall (fun h => Header.name h <> k) post ->
        last_header k headers = Some v)
  /\ (forall k, Forall (fun h => Header.name h <> k) headers ->
        last_header k headers = None).
Proof.
  intros Hparse headers.
  destruct (parse_email_fields msg t t' data Hparse)
    as [_ [_ [Hfrom [Hto [Hsubject _]]]]].
  fold headers in Hfrom, Hto, Hsubject.
  assert (Hnone : forall k hs, Forall (fun h => Header.name h <> k) hs ->
                    last_header k hs = None).
  { intros k hs H. induction H as [|h hs Hh H IH]; cbn [last_header];
      [reflexivity|].
    rewrite IH, (str_eqb_ne _ _ Hh). reflexivity. }
  split; [exact Hfrom|]. split; [exact Hto|]. split; [exact Hsubject|].
  split.
  - intros k pre post v Heq Hpost. rewrite Heq. clear Heq.
    induction pre as [|h pre IH];
      cbn [app last_header].
    + rewrite (Hnone k post Hpost). cbn. rewrite str_eqb_eq by reflexivity.
      reflexivity.
    + rewrite IH. reflexivity.
  - intros k. apply Hnone.
Qed.

(** X30. The date of a parsed message: none without a [Date] header;
    the date that the header gives when it can be parsed, without any
    reading of the clock; and, when the header cannot be parsed, the
    reading of the clock at that moment. *)
Theorem parsed_date (msg : Message.t) (t t' : nat) (data : EmailData.t) :
  parse_email' msg t = (Ok data, t') ->
  match last_header "Date" (Payload.headers (Message.payload msg)) with
  | None => EmailData.received_date data = None /\ t' = t
  | Some date =>
      match parsedate_to_datetime date with
      | Some d => EmailData.received_date data = Some d /\ t' = t
      | None => EmailData.received_date data = Some (clock t) /\ t' = S t
      end
  end.
Proof.
  unfold parse_email. rewrite !headers_dict_get.
  assert (Hbodies : forall (m : M (option string * option string)) t0,
             snd (m t0) = t0 -> forall b t1, m t0 = (Ok b, t1) -> t1 = t0).
  { intros m t0 H b t1 Heq. rewrite Heq in H. exact H. }
  assert (Hparts : forall parts a b t0,
             snd (parse_parts decode_body parts a b t0) = t0).
  { induction parts as [|p parts IH]; intros a b t0; cbn [parse_parts];
      [reflexivity|].
    destruct (Body.data (Part.body p)) as [d|]; [|apply IH].
    destruct (str_eqb (Part.mimeType p) "text/plain").
    - unfold bind, lift. destruct (decode_body d); [apply IH|reflexivity].
    - destruct (str_eqb (Part.mimeType p) "text/html"); [|apply IH].
      unfold bind, lift. destruct (decode_body d); [apply IH|reflexivity]. }
  assert (Htick : forall t0,
             snd ((match Payload.parts (Message.payload msg) with
                   | Some parts => parse_parts decode_body parts None None
                   | None =>
                       match Payload.body (Message.payload msg) with
                       | Some (Body.mk (Some data)) =>
                           body_data <- lift (decode_body data) ;;
                           if str_eqb (Payload.mimeType (Message.payload msg))
                                "text/plain"
                           then ret (Some body_data, None)
                           else if str_eqb
                                     (Payload.mimeType (Message.payload msg))
                                     "text/html"
                           then ret (None, Some body_data)
                           else ret (None, None)
                       | _ => ret (None, None)
                       end
                   end) t0) = t0).
  { intros t0. destruct (Payload.parts (Message.payload msg)); [apply Hparts|].
    destruct (Payload.body (Message.payload msg)) as [[[d|]]|];
      try reflexivity.
    unfold bind, lift. destruct (decode_body d); [|reflexivity].
    destruct (str_eqb _ _); [reflexivity|].
    destruct (str_eqb _ _); reflexivity. }
  destruct (last_header "Date" (Payload.headers (Message.payload msg)))
    as [date|].
  - destruct (parsedate_to_datetime date) as [d|].
    + rewrite bind_ret. unfold bind at 1.
      match goal with
      | |- context [match ?m t with _ => _ end] =>
          pose proof (Htick t) as Ht; destruct (m t) as [[b|x] t2]
      end; [|discriminate].
      cbn in Ht. subst t2. intros [= <- <-]. split; reflexivity.
    + unfold bind at 1. unfold bind at 1. unfold utcnow at 1. cbn [ret].
      unfold bind at 1.
      match goal with
      | |- context [match ?m (S t) with _ => _ end] =>
          pose proof (Htick (S t)) as Ht; destruct (m (S t)) as [[b|x] t2]
      end; [|discriminate].
      cbn in Ht. subst t2. intros [= <- <-]. split; reflexivity.
  - rewrite bind_ret. unfold bind at 1.
    match goal with
    | |- context [match ?m t with _ => _ end] =>
        pose proof (Htick t) as Ht; destruct (m t) as [[b|x] t2]
    end; [|discriminate].
    cbn in Ht. subst t2. intros [= <- <-]. split; reflexivity.
Qed.

End FetchFacts.

Lemma sample_parse :
  parse_email (fun _ => day 3) sample_parsedate sample_decode sample_message
    0%nat
  = (Ok sample_data, 1%nat).
Proof. vm_compute. reflexivity. Qed.

Lemma parsed_labels_witness :
  (EmailData.is_read sample_data = true <-> "UNREAD" ∉ ["INBOX"; "UNREAD"])
  /\ (Forall comma_free ["INBOX"; "UNREAD"] -> ["INBOX"; "UNREAD"] <> [""] ->
      label_list (Some (EmailData.labels sample_data)) = ["INBOX"; "UNREAD"]).
Proof.
  apply (parsed_labels (fun _ => day 3) sample_parsedate sample_decode
           sample_message 0%nat 1%nat sample_data).
  exact sample_parse.
Defined.

Lemma parsed_headers_witness :
  EmailData.from_address sample_data
  = default ""
      (last_header "From" (Payload.headers (Message.payload sample_message)))
  /\ EmailData.to_address sample_data
     = default ""
         (last_header "To" (Payload.headers (Message.payload sample_message)))
  /\ EmailData.subject sample_data
     = default "(No Subject)"
         (last_header "Subject"
            (Payload.headers (Message.payload sample_message))).
Proof.
  destruct (parsed_headers (fun _ => day 3) sample_parsedate sample_decode
              sample_message 0%nat 1%nat sample_data sample_parse)
    as [H1 [H2 [H3 _]]].
  repeat split; assumption.
Defined.

Lemma parsed_date_witness :
  EmailData.received_date sample_data = Some (day 3) /\ 1%nat = 1%nat.
Proof.
  exact (parsed_date (fun _ => day 3) sample_parsedate sample_decode
           sample_message 0%nat 1%nat sample_data sample_parse).
Defined.

(** ** Storing a message *)

Lemma find_message_some (message_id : string) (rows : list Row.t) (r : Row.t) :
  find_message message_id rows = Some r ->
  r ∈ rows /\ Row.message_id r = message_id.
Proof.
  unfold find_message. induction rows as [|r0 rows IH]; cbn [List.find];
    [discriminate|].
  destruct (str_eqb (Row.message_id r0) message_id) eqn:E.
  - intros [= <-]. apply str_eqb_true in E. split; [apply list_elem_of_here|].
    exact E.
  - intros H. apply IH in H as [Hin Hm]. split; [|exact Hm].
    apply elem_of_cons. right. exact Hin.
Qed.

Lemma find_message_none (message_id : string) (rows : list Row.t) :
  find_message message_id rows = None ->
  message_id ∉ map Row.message_id rows.
Proof.
  unfold find_message. induction rows as [|r0 rows IH]; cbn [List.find map].
  - intros _. apply not_elem_of_nil.
  - destruct (str_eqb (Row.message_id r0) message_id) eqn:E; [discriminate|].
    intros H. apply str_eqb_false in E. apply not_elem_of_cons.
    split; [congruence|apply IH, H].
Qed.

Lemma update_message_keys (message_id : string) (f : Row.t -> Row.t)
    (rows : list Row.t) :
  (forall r, Row.id (f r) = Row.id r) ->
  (forall r, Row.message_id r = message_id -> Row.message_id (f r) = message_id) ->
  map Row.id (update_message message_id f rows) = map Row.id rows
  /\ map Row.message_id (update_message message_id f rows)
     = map Row.message_id rows.
Proof.
  intros Hid Hm. induction rows as [|r rows [IH1 IH2]];
    cbn [update_message map]; [split; reflexivity|].
  destruct (str_eqb (Row.message_id r) message_id) eqn:E; cbn [map].
  - apply str_eqb_true in E. rewrite Hid, (Hm r E), E. split; reflexivity.
  - rewrite IH1, IH2. split; reflexivity.
Qed.

Lemma find_message_update (message_id : string) (f : Row.t -> Row.t)
    (rows : list Row.t) (r : Row.t) :
  find_message message_id rows = Some r ->
  Row.message_id (f r) = message_id ->
  find_message message_id (update_message message_id f rows) = Some (f r).
Proof.
  unfold find_message. intros Hfind Hm.
  induction rows as [|r0 rows IH]; cbn [List.find update_message] in *;
    [discriminate|].
  destruct (str_eqb (Row.message_id r0) message_id) eqn:E.
  - injection Hfind as <-. cbn [List.find].
    rewrite (str_eqb_eq _ _ Hm). reflexivity.
  - cbn [List.find]. rewrite E. apply IH, Hfind.
Qed.

Lemma update_message_others (message_id : string) (f : Row.t -> Row.t)
    (rows : list Row.t) (r : Row.t) :
  r ∈ rows -> Row.message_id r <> message_id ->
  r ∈ update_message message_id f rows.
Proof.
  intros Hin Hne. induction rows as [|r0 rows IH]; cbn [update_message];
    [exact Hin|].
  apply elem_of_cons in Hin as [->|Hin].
  - rewrite (str_eqb_ne _ _ Hne). apply list_elem_of_here.
  - destruct (str_eqb (Row.message_id r0) message_id);
      apply elem_of_cons; right; [exact Hin|apply IH, Hin].
Qed.

Lemma find_message_app (message_id : string) (rows : list Row.t) (r : Row.t) :
  find_message message_id rows = None ->
  Row.message_id r = message_id ->
  find_message message_id (rows ++ [r]) = Some r.
Proof.
  unfold find_message. intros Hnone Hm.
  induction rows as [|r0 rows IH]; cbn [List.find app] in *.
  - rewrite (str_eqb_eq _ _ Hm). reflexivity.
  - destruct (str_eqb (Row.message_id r0) message_id); [discriminate|].
    apply IH, Hnone.
Qed.



Section StoreFacts.

Variable new_id : list Row.t -> Z.
Hypothesis new_id_fresh : forall rows, new_id rows ∉ map Row.id rows.

(** X28. [store_email] keeps the identifiers and the Gmail message
    identifiers of the table distinct, adds at most one row, and leaves
    every row of another message as it is; afterwards the row of the
    message holds the stored data under the identifier that [store_email]
    returns. *)
Theorem store_email_keeps_keys (data : EmailData.t) (rows : list Row.t) :
  NoDup (map Row.id rows) ->
  NoDup (map Row.message_id rows) ->
  let email_id := (store_email new_id data rows).1 in
  let rows' := (store_email new_id data rows).2 in
  NoDup (map Row.id rows')
  /\ NoDup (map Row.message_id rows')
  /\ find_message (EmailData.message_id data) rows'
     = Some (data_row email_id data)
  /\ (forall r, r ∈ rows -> Row.message_id r <> EmailData.message_id data ->
        r ∈ rows')
  /\ (List.length rows <= List.length rows' <= S (List.length rows))%nat.
Proof.
  intros Hids Hmsgs. unfold store_email.
  destruct (find_message (EmailData.message_id data) rows) as [existing|]
    eqn:Hfind; cbn [fst snd].
  - destruct (update_message_keys (EmailData.message_id data)
                (fun r => data_row (Row.id r) data) rows)
      as [Hk1 Hk2]; [reflexivity|reflexivity|].
    rewrite Hk1, Hk2. split; [exact Hids|]. split; [exact Hmsgs|]. split.
    + apply (find_message_update _ (fun r => data_row (Row.id r) data) _ _
               Hfind).
      reflexivity.
    + split; [intros r; apply update_message_others|].
      rewrite <- (length_map Row.id (update_message _ _ _)), Hk1, length_map.
      lia.
  - rewrite !map_app. cbn [map data_row Row.id Row.message_id].
    split; [|split; [|split; [|split]]].
    + apply NoDup_app. split; [exact Hids|]. split; [|apply NoDup_singleton].
      intros x Hx Hx'. apply list_elem_of_singleton in Hx'. subst x.
      apply (new_id_fresh rows Hx).
    + apply NoDup_app. split; [exact Hmsgs|]. split; [|apply NoDup_singleton].
      intros x Hx Hx'. apply list_elem_of_singleton in Hx'. subst x.
      apply (find_message_none _ _ Hfind Hx).
    + apply (find_message_app _ _ _ Hfind). reflexivity.
    + intros r Hr _. apply elem_of_app. left. exact Hr.
    + rewrite length_app. cbn. lia.
Qed.


End StoreFacts.

Lemma next_row_id_fresh (rows : list Row.t) :
  next_row_id rows ∉ map Row.id rows.
Proof.
  unfold next_row_id.
  assert (H : forall x, x ∈ map Row.id rows ->
                x <= foldr Z.max 0 (map Row.id rows)).
  { induction (map Row.id rows) as [|y l IH]; intros x Hx; cbn [foldr].
    - apply elem_of_nil in Hx. contradiction.
    - apply elem_of_cons in Hx as [->|Hx]; [lia|].
      specialize (IH x Hx). lia. }
  intros Hin. apply H in Hin. lia.
Qed.

Lemma store_email_keeps_keys_witness :
  NoDup (map Row.id (store_email next_row_id sample_data [unread_row]).2)
  /\ NoDup
       (map Row.message_id (store_email next_row_id sample_data [unread_row]).2)
  /\ find_message "m1" (store_email next_row_id sample_data [unread_row]).2
     = Some (data_row 1 sample_data).
Proof.
  destruct (store_email_keeps_keys next_row_id next_row_id_fresh sample_data
              [unread_row])
    as [H1 [H2 [H3 _]]].
  - apply NoDup_singleton.
  - apply NoDup_singleton.
  - repeat split; assumption.
Defined.

(** ** From the mailbox to the rules *)

Lemma check_string_no_attribute_error (predicate value fv : string) (t : nat) :
  fst (check_string_condition predicate value (Some fv) t)
  <> Raise AttributeError.
Proof.
  unfold check_string_condition.
  destruct (str_eqb predicate "contains"),
    (str_eqb predicate "does_not_contain"), (str_eqb predicate "equals"),
    (str_eqb predicate "does_not_equal"); discriminate.
Qed.

Lemma check_date_no_attribute_error (clock : nat -> datetime)
    (predicate value unit : string) (d : option datetime) (t : nat) :
  fst (_check_date_condition clock predicate value unit d t)
  <> Raise AttributeError.
Proof.
  unfold _check_date_condition. destruct d as [d|]; [|discriminate].
  destruct (py_int value) as [n|]; [|discriminate].
  unfold bind, utcnow, ret, raise.
  destruct (str_eqb unit "days"), (str_eqb unit "months"),
    (str_eqb predicate "less_than"), (str_eqb predicate "greater_than");
    discriminate.
Qed.

Section Addressed.

Variable clock : nat -> datetime.
Variable e : Email.t.
Hypothesis e_addressed : addressed e.

Lemma condition_no_attribute_error (c : Condition.t) (t : nat) :
  fst (_condition_matches clock c e t) <> Raise AttributeError.
Proof.
  destruct e_addressed as [[f Hf] [[o Ho] [s Hs]]].
  unfold _condition_matches. rewrite Hf, Ho, Hs.
  repeat match goal with
    | |- context [if str_eqb ?a ?b then _ else _] => destruct (str_eqb a b)
    end;
    auto using check_string_no_attribute_error, check_date_no_attribute_error;
    discriminate.
Qed.

Lemma all_no_attribute_error (cs : list Condition.t) (t : nat) :
  fst (all_conditions clock cs e t) <> Raise AttributeError.
Proof.
  revert t. induction cs as [|c cs IH]; intros t; cbn [all_conditions];
    [discriminate|].
  rewrite fst_bind. pose proof (condition_no_attribute_error c t) as Hc.
  destruct (fst (_condition_matches clock c e t)) as [[|]|x]; cbn [rbind];
    [apply IH|discriminate|exact Hc].
Qed.

Lemma any_no_attribute_error (cs : list Condition.t) (t : nat) :
  fst (any_conditions clock cs e t) <> Raise AttributeError.
Proof.
  revert t. induction cs as [|c cs IH]; intros t; cbn [any_conditions];
    [discriminate|].
  rewrite fst_bind. pose proof (condition_no_attribute_error c t) as Hc.
  destruct (fst (_condition_matches clock c e t)) as [[|]|x]; cbn [rbind];
    [discriminate|apply IH|exact Hc].
Qed.

Lemma rule_no_attribute_error (r : Rule.t) (t : nat) :
  fst (_rule_applies clock r e t) <> Raise AttributeError.
Proof.
  unfold _rule_applies.
  destruct (str_eqb (Rule.predicate r) "all"); [apply all_no_attribute_error|].
  destruct (str_eqb (Rule.predicate r) "any"); [apply any_no_attribute_error|].
  discriminate.
Qed.

Lemma check_rules_no_attribute_error (rules : list Rule.t)
    (acc : list applied) (t : nat) :
  fst (check_rules clock rules e acc t) <> Raise AttributeError.
Proof.
  revert acc t. induction rules as [|r rules IH]; intros acc t;
    cbn [check_rules]; [discriminate|].
  rewrite fst_bind. pose proof (rule_no_attribute_error r t) as Hr.
  destruct (fst (_rule_applies clock r e t)) as [b|x]; cbn [rbind];
    [apply IH|congruence].
Qed.

End Addressed.

Lemma process_emails_no_attribute_error (clock : nat -> datetime)
    (rules : list Rule.t) (emails : list Email.t) (results : action_plan)
    (t : nat) :
  Forall addressed emails ->
  fst (process_emails clock rules emails results t) <> Raise AttributeError.
Proof.
  intros Hall. revert results t.
  induction Hall as [|e emails He Hall IH]; intros results t;
    cbn [process_emails]; [discriminate|].
  rewrite fst_bind.
  pose proof (check_rules_no_attribute_error clock e He rules [] t) as Hc.
  destruct (fst (check_rules clock rules e [] t)) as [l|x]; cbn [rbind];
    [apply IH|congruence].
Qed.

Lemma stored_table_addressed (new_id : list Row.t -> Z)
    (datas : list EmailData.t) :
  Forall (fun r => addressed (Row.email r)) (stored_table new_id datas).
Proof.
  unfold stored_table.
  assert (H : forall rows,
             Forall (fun r => addressed (Row.email r)) rows ->
             Forall (fun r => addressed (Row.email r))
               (foldl (fun rows data => (store_email new_id data rows).2)
                  rows datas)).
  { induction datas as [|data datas IH]; intros rows Hrows; cbn [foldl];
      [exact Hrows|].
    apply IH. unfold store_email.
    destruct (find_message (EmailData.message_id data) rows); cbn [snd].
    - clear IH. induction Hrows as [|r rows Hr Hrows IHrows];
        cbn [update_message]; [constructor|].
      destruct (str_eqb (Row.message_id r) (EmailData.message_id data));
        constructor; try assumption.
      repeat split; eexists; reflexivity.
    - apply Forall_app. split; [exact Hrows|].
      constructor; [|constructor]. repeat split; eexists; reflexivity. }
  apply H. constructor.
Qed.

(** X25. On a table that [store_email] has filled, from an empty table,
    with data as [parse_email] returns them, the evaluation of the rules
    never raises [AttributeError]: the sender, the recipient and the
    subject of a stored message are never null. *)
Theorem stored_emails_never_attribute_error (new_id : list Row.t -> Z)
    (datas : list EmailData.t) (clock : nat -> datetime)
    (rules : list Rule.t) (email_ids : option (list Z)) (t : nat) :
  fst (evaluate_emails clock rules
         (map Row.email (stored_table new_id datas)) email_ids t)
  <> Raise AttributeError.
Proof.
  unfold evaluate_emails. apply process_emails_no_attribute_error.
  assert (Hall : Forall addressed (map Row.email (stored_table new_id datas))).
  { apply Forall_map. apply stored_table_addressed. }
  destruct email_ids as [[|j ids]|]; cbn [query_emails]; try exact Hall.
  apply Forall_forall. intros x Hx. apply list_elem_of_filter in Hx as [_ Hx].
  rewrite Forall_forall in Hall. apply Hall, Hx.
Qed.
